(** * kRPC C++ client: the decode half of the wire codec

    A shallow embedding of [client/cpp/include/krpc/decoder.hpp] and the
    properties of its overloads of [decode].

    The header defines the templated overloads (object handles, vectors,
    maps, sets, tuples of one to five slots, enumerations).  The scalar
    overloads, [decode_delimited] and [decode_size_and_position] are only
    declared there; the protobuf messages [krpc::schema::List],
    [Dictionary], [Set] and [Tuple] come from the schema layer. *)

From Stdlib Require Import NArith ZArith.
From Stdlib.Strings Require Import Byte.
From stdpp Require Import base option list gmap.

(** A [std::string] used as a byte buffer. *)
Abbreviation bytes := (list byte).

Module decoder.

(** ** Outcomes of a call

    Every overload has the shape
    [void decode(T& value, const std::string& data, Client* client)]:
    it works on the caller's variable in place and either returns or throws
    [DecodeFailed].  An outcome records how the call ended together with the
    content of the output variable at that moment, which is what a caller
    that catches the exception can still observe.

    [OutOfRange] stands for a call of the accessor [items(i)] of a repeated
    field with [i >= items_size()].  The header never checks the index, and
    the accessor has no defined result there; it is kept apart from both a
    normal return and [DecodeFailed]. *)
Inductive outcome (T : Type) : Type :=
  | Returns (value : T)
  | DecodeFailed (value : T)
  | OutOfRange.
Arguments Returns {T} value.
Arguments DecodeFailed {T} value.
Arguments OutOfRange {T}.

(** [andthen m frame k]: run [k] on the result of [m]; when [m] throws, the
    exception passes through and [frame] rebuilds the enclosing output
    variable around whatever [m] left behind. *)
Definition andthen {S T : Type} (m : outcome T) (frame : T → S)
    (k : T → outcome S) : outcome S :=
  match m with
  | Returns value => k value
  | DecodeFailed value => DecodeFailed (frame value)
  | OutOfRange => OutOfRange
  end.

(** How a call ended, without the content of the output variable. *)
Inductive ending : Type := Returned | Thrown | Undefined.

Definition ending_of {T : Type} (m : outcome T) : ending :=
  match m with
  | Returns _ => Returned
  | DecodeFailed _ => Thrown
  | OutOfRange => Undefined
  end.

(** ** The schema layer *)

(** [krpc::schema::DictionaryEntry]: two [bytes] fields. *)
Record DictionaryEntry : Type := { key : bytes; value : bytes }.

(** [ParseFromString] fills a message and reports success as a [bool].  The
    messages [List], [Set] and [Tuple] have the single repeated field
    [items]; [Dictionary] has the repeated field [entries].  Each parser gives
    the flag and the content of the message after the call. *)
Class Schema : Type := {
  List_ParseFromString : bytes → bool * list bytes;
  Dictionary_ParseFromString : bytes → bool * list DictionaryEntry;
  Set_ParseFromString : bytes → bool * list bytes;
  Tuple_ParseFromString : bytes → bool * list bytes
}.

(** [krpc::Object<T>]: the two fields the header assigns (the type argument
    [T] plays no part in decoding).  A [Client*] is [option Client], with
    [None] for [NULL]; identifiers are [uint64]. *)
Record Object (Client : Type) : Type := { client : option Client; id : Z }.
Arguments client {Client} _.
Arguments id {Client} _.

(** [boost::tuple<T0>] to [boost::tuple<T0,T1,T2,T3,T4>]. *)
Inductive tuple1 (T0 : Type) : Type :=
  Tuple1 (t0 : T0).
Inductive tuple2 (T0 T1 : Type) : Type :=
  Tuple2 (t0 : T0) (t1 : T1).
Inductive tuple3 (T0 T1 T2 : Type) : Type :=
  Tuple3 (t0 : T0) (t1 : T1) (t2 : T2).
Inductive tuple4 (T0 T1 T2 T3 : Type) : Type :=
  Tuple4 (t0 : T0) (t1 : T1) (t2 : T2) (t3 : T3).
Inductive tuple5 (T0 T1 T2 T3 T4 : Type) : Type :=
  Tuple5 (t0 : T0) (t1 : T1) (t2 : T2) (t3 : T3) (t4 : T4).
Arguments Tuple1 {T0} t0.
Arguments Tuple2 {T0 T1} t0 t1.
Arguments Tuple3 {T0 T1 T2} t0 t1 t2.
Arguments Tuple4 {T0 T1 T2 T3} t0 t1 t2 t3.
Arguments Tuple5 {T0 T1 T2 T3 T4} t0 t1 t2 t3 t4.

(** An integer type of C++: its width in bits and whether it is signed. *)
Record integer_type : Type := { bits : Z; is_signed : bool }.

(** The conversion of an integer to an integer type: the value modulo
    [2 ^ bits], taken in the signed range for a signed type. *)
Definition convert (ty : integer_type) (x : Z) : Z :=
  if is_signed ty
  then ((x + 2 ^ (bits ty - 1)) mod 2 ^ bits ty - 2 ^ (bits ty - 1))%Z
  else (x mod 2 ^ bits ty)%Z.

(** An enumeration type: its declared enumerators and its underlying integer
    type.  [decode_enum] is a template over any such type. *)
Record enum_type : Type := {
  enumerators : list Z;
  underlying_type : integer_type
}.

(** An object of the enumeration type [E]: it holds a value of the
    underlying type. *)
Record Enum (E : enum_type) : Type := enum_value { underlying : Z }.

(** [static_cast<T>(x)] for an enumeration [T] and an [int32] [x]: the
    number is converted to the underlying type of [T]; it is not compared
    with the enumerators. *)
Definition static_cast (E : enum_type) (x : Z) : Enum E :=
  enum_value E (convert (underlying_type E) x).

(** The types [google::protobuf::int32] and, of the same width, the [int]
    that underlies an enumeration declared without an underlying type. *)
Definition int32 : integer_type := {| bits := 32; is_signed := true |}.

(** An integer type that holds every [int32]: it is signed and has 32 bits
    or more. *)
Definition holds_int32 (ty : integer_type) : Prop :=
  is_signed ty = true ∧ (32 ≤ bits ty)%Z.

(** The overload set [decode] at a type [T]: [fresh] is a variable declared
    as [T value;], [decode] the overload chosen for [T&]. *)
Class Decoder (Client T : Type) : Type := {
  fresh : T;
  decode : T → bytes → option Client → outcome T
}.

(** What the templates use and the header does not define: the scalar
    overloads for [int32] and [uint64] (declared on lines 25 and 28) and the
    default constructor of [Object<T>]. *)
Class Externals (Client : Type) : Type := {
  decode_int32 : Decoder Client Z;
  decode_uint64 : Decoder Client Z;
  Object_default : Object Client
}.

(** [T x; decode(x, data, client);]: a call on a variable declared for it. *)
Definition decode_local {Client T : Type} (overload : Decoder Client T)
    (data : bytes) (client : option Client) : outcome T :=
  @decode Client T overload (@fresh Client T overload) data client.

Section Decode.
Context {Client : Type} {schema : Schema} {externals : Externals Client}.

(** [decode(Object<T>&, data, client)], lines 50-56. *)
Definition decode_Object (object : Object Client) (data : bytes)
    (client : option Client) : outcome (Object Client) :=
  andthen (decode_local decode_uint64 data client)
    (λ _, object)
    (λ id, Returns {| client := client; id := id |}).

(** [decode_enum(T&, data, client)], lines 142-147. *)
Definition decode_enum {E : enum_type} (value : Enum E)
    (data : bytes) (client : option Client) : outcome (Enum E) :=
  andthen (decode_local decode_int32 data client)
    (λ _, value)
    (λ x, Returns (static_cast E x)).

Section VectorDecode.
Context {T : Type} `{!Decoder Client T}.

(** The loop of lines 63-67 over the items still to visit. *)
Fixpoint vector_loop (vec : list T) (items : list bytes)
    (client : option Client) : outcome (list T) :=
  match items with
  | [] => Returns vec
  | item :: items =>
      andthen (decode fresh item client) (λ _, vec)
        (λ value, vector_loop (vec ++ [value]) items client)
  end.

(** [decode(std::vector<T>&, data, client)], lines 58-68. *)
Definition decode_vector (vec : list T) (data : bytes)
    (client : option Client) : outcome (list T) :=
  let vec : list T := [] in                                (* list.clear() *)
  let listMessage := snd (List_ParseFromString data) in    (* bool dropped *)
  vector_loop vec listMessage client.
End VectorDecode.

Section MapDecode.
Context {K V : Type} `{Countable K}.
Context `{!Decoder Client K} `{!Decoder Client V}.

(** The loop of lines 75-82. *)
Fixpoint map_loop (dictionary : gmap K V) (entries : list DictionaryEntry)
    (client : option Client) : outcome (gmap K V) :=
  match entries with
  | [] => Returns dictionary
  | entry :: entries =>
      andthen (decode fresh (key entry) client) (λ _, dictionary) (λ k,
      andthen (decode fresh (value entry) client) (λ _, dictionary) (λ v,
      map_loop (<[k := v]> dictionary) entries client))
  end.

(** [decode(std::map<K,V>&, data, client)], lines 70-83. *)
Definition decode_map (dictionary : gmap K V) (data : bytes)
    (client : option Client) : outcome (gmap K V) :=
  let dictionary : gmap K V := ∅ in                  (* dictionary.clear() *)
  let dictionaryMessage :=
    snd (Dictionary_ParseFromString data) in               (* bool dropped *)
  map_loop dictionary dictionaryMessage client.
End MapDecode.

Section SetDecode.
Context {T : Type} `{Countable T} `{!Decoder Client T}.

(** The loop of lines 90-94. *)
Fixpoint set_loop (set : gset T) (items : list bytes)
    (client : option Client) : outcome (gset T) :=
  match items with
  | [] => Returns set
  | item :: items =>
      andthen (decode fresh item client) (λ _, set)
        (λ value, set_loop ({[value]} ∪ set) items client)
  end.

(** [decode(std::set<T>&, data, client)], lines 85-95. *)
Definition decode_set (set : gset T) (data : bytes)
    (client : option Client) : outcome (gset T) :=
  let set : gset T := ∅ in                                  (* set.clear() *)
  let setMessage := snd (Set_ParseFromString data) in      (* bool dropped *)
  set_loop set setMessage client.
End SetDecode.

Section TupleDecode.
Context {T0 T1 T2 T3 T4 : Type}.
Context `{!Decoder Client T0} `{!Decoder Client T1} `{!Decoder Client T2}.
Context `{!Decoder Client T3} `{!Decoder Client T4}.

(** [decode(boost::get<i>(tuple), tupleMessage.items(i), client)]: the
    argument [items(i)] is evaluated, without a bounds check, before the
    slot's overload runs on the slot in place. *)
Definition slot {T : Type} `{!Decoder Client T} (tupleMessage : list bytes)
    (i : nat) (t : T) (client : option Client) : outcome T :=
  match tupleMessage !! i with
  | Some item => decode t item client
  | None => OutOfRange
  end.

(** [decode(boost::tuple<T0>&, data, client)], lines 97-102. *)
Definition decode_tuple1 (tuple : tuple1 T0) (data : bytes)
    (client : option Client) : outcome (tuple1 T0) :=
  let tupleMessage := snd (Tuple_ParseFromString data) in
  let '(Tuple1 t0) := tuple in
  andthen (slot tupleMessage 0 t0 client) (λ x, Tuple1 x) (λ t0,
  Returns (Tuple1 t0)).

(** [decode(boost::tuple<T0,T1>&, data, client)], lines 104-110. *)
Definition decode_tuple2 (tuple : tuple2 T0 T1) (data : bytes)
    (client : option Client) : outcome (tuple2 T0 T1) :=
  let tupleMessage := snd (Tuple_ParseFromString data) in
  let '(Tuple2 t0 t1) := tuple in
  andthen (slot tupleMessage 0 t0 client) (λ x, Tuple2 x t1) (λ t0,
  andthen (slot tupleMessage 1 t1 client) (λ x, Tuple2 t0 x) (λ t1,
  Returns (Tuple2 t0 t1))).

(** [decode(boost::tuple<T0,T1,T2>&, data, client)], lines 112-119. *)
Definition decode_tuple3 (tuple : tuple3 T0 T1 T2) (data : bytes)
    (client : option Client) : outcome (tuple3 T0 T1 T2) :=
  let tupleMessage := snd (Tuple_ParseFromString data) in
  let '(Tuple3 t0 t1 t2) := tuple in
  andthen (slot tupleMessage 0 t0 client) (λ x, Tuple3 x t1 t2) (λ t0,
  andthen (slot tupleMessage 1 t1 client) (λ x, Tuple3 t0 x t2) (λ t1,
  andthen (slot tupleMessage 2 t2 client) (λ x, Tuple3 t0 t1 x) (λ t2,
  Returns (Tuple3 t0 t1 t2)))).

(** [decode(boost::tuple<T0,T1,T2,T3>&, data, client)], lines 121-129. *)
Definition decode_tuple4 (tuple : tuple4 T0 T1 T2 T3) (data : bytes)
    (client : option Client) : outcome (tuple4 T0 T1 T2 T3) :=
  let tupleMessage := snd (Tuple_ParseFromString data) in
  let '(Tuple4 t0 t1 t2 t3) := tuple in
  andthen (slot tupleMessage 0 t0 client) (λ x, Tuple4 x t1 t2 t3) (λ t0,
  andthen (slot tupleMessage 1 t1 client) (λ x, Tuple4 t0 x t2 t3) (λ t1,
  andthen (slot tupleMessage 2 t2 client) (λ x, Tuple4 t0 t1 x t3) (λ t2,
  andthen (slot tupleMessage 3 t3 client) (λ x, Tuple4 t0 t1 t2 x) (λ t3,
  Returns (Tuple4 t0 t1 t2 t3))))).

(** [decode(boost::tuple<T0,T1,T2,T3,T4>&, data, client)],
    lines 131-140. *)
Definition decode_tuple5 (tuple : tuple5 T0 T1 T2 T3 T4) (data : bytes)
    (client : option Client) : outcome (tuple5 T0 T1 T2 T3 T4) :=
  let tupleMessage := snd (Tuple_ParseFromString data) in
  let '(Tuple5 t0 t1 t2 t3 t4) := tuple in
  andthen (slot tupleMessage 0 t0 client) (λ x, Tuple5 x t1 t2 t3 t4) (λ t0,
  andthen (slot tupleMessage 1 t1 client) (λ x, Tuple5 t0 x t2 t3 t4) (λ t1,
  andthen (slot tupleMessage 2 t2 client) (λ x, Tuple5 t0 t1 x t3 t4) (λ t2,
  andthen (slot tupleMessage 3 t3 client) (λ x, Tuple5 t0 t1 t2 x t4) (λ t3,
  andthen (slot tupleMessage 4 t4 client) (λ x, Tuple5 t0 t1 t2 t3 x) (λ t4,
  Returns (Tuple5 t0 t1 t2 t3 t4)))))).
End TupleDecode.

(** Overload resolution: the templated overloads as members of the overload
    set, so that a container of containers picks the right one for its
    elements. *)
#[export] Instance Object_Decoder : Decoder Client (Object Client) :=
  {| fresh := Object_default; decode := decode_Object |}.
#[export] Instance vector_Decoder {T} `{!Decoder Client T} :
  Decoder Client (list T) :=
  {| fresh := []; decode := decode_vector |}.
#[export] Instance map_Decoder {K V} `{Countable K}
  `{!Decoder Client K} `{!Decoder Client V} : Decoder Client (gmap K V) :=
  {| fresh := ∅; decode := decode_map |}.
#[export] Instance set_Decoder {T} `{Countable T} `{!Decoder Client T} :
  Decoder Client (gset T) :=
  {| fresh := ∅; decode := decode_set |}.
#[export] Instance tuple1_Decoder {T0} `{!Decoder Client T0} :
  Decoder Client (tuple1 T0) :=
  {| fresh := Tuple1 fresh; decode := decode_tuple1 |}.
#[export] Instance tuple2_Decoder {T0 T1}
  `{!Decoder Client T0} `{!Decoder Client T1} :
  Decoder Client (tuple2 T0 T1) :=
  {| fresh := Tuple2 fresh fresh; decode := decode_tuple2 |}.
#[export] Instance tuple3_Decoder {T0 T1 T2}
  `{!Decoder Client T0} `{!Decoder Client T1} `{!Decoder Client T2} :
  Decoder Client (tuple3 T0 T1 T2) :=
  {| fresh := Tuple3 fresh fresh fresh; decode := decode_tuple3 |}.
#[export] Instance tuple4_Decoder {T0 T1 T2 T3}
  `{!Decoder Client T0} `{!Decoder Client T1} `{!Decoder Client T2}
  `{!Decoder Client T3} : Decoder Client (tuple4 T0 T1 T2 T3) :=
  {| fresh := Tuple4 fresh fresh fresh fresh; decode := decode_tuple4 |}.
#[export] Instance tuple5_Decoder {T0 T1 T2 T3 T4}
  `{!Decoder Client T0} `{!Decoder Client T1} `{!Decoder Client T2}
  `{!Decoder Client T3} `{!Decoder Client T4} :
  Decoder Client (tuple5 T0 T1 T2 T3 T4) :=
  {| fresh := Tuple5 fresh fresh fresh fresh fresh;
     decode := decode_tuple5 |}.

End Decode.

(** ** The delimited-message framer

    [decode_size_and_position] and [decode_delimited] are declared on lines
    46-48 and defined outside the header. *)

(** Modelled from the spec: the variable-length unsigned integer of section
    6 ("standard variable-length integer encoding"), missing from the header.
    Each byte carries seven bits of the value, least significant group first,
    and its top bit tells whether another byte follows.  The result is the
    value and the number of bytes read.  [read_varint_upto limit] reads at
    most [limit] bytes: it fails on a longer run of bytes (a malformed
    prefix, section 7) and when the buffer ends before the integer
    terminates (section 4.6). *)
Fixpoint read_varint_upto (limit : nat) (data : bytes) : option (N * nat) :=
  match limit, data with
  | O, _ => None
  | _, [] => None
  | S limit, b :: data =>
      let x := Byte.to_N b in
      if N.testbit x 7 then
        match read_varint_upto limit data with
        | Some (v, n) => Some (N.lor (N.land x 127) (N.shiftl v 7), S n)
        | None => None
        end
      else Some (x, 1%nat)
  end.

(** Modelled from the spec: the longest variable-length integer of the
    standard encoding, the ten bytes a 64-bit value can take. *)
Definition max_varint_length : nat := 10.

(** Modelled from the spec: the read of one variable-length integer from the
    start of a buffer. *)
Definition read_varint (data : bytes) : option (N * nat) :=
  read_varint_upto max_varint_length data.

(** Modelled from the spec: the body of [decode_size_and_position], missing
    from the header.  Section 4.6: read a variable-length unsigned integer
    from the start of the buffer and return the decoded length value together
    with the byte offset immediately following the length prefix.  Both
    components of the declared result are [google::protobuf::uint32]: a
    length that is out of range for that type is rejected (sections 4.1 and
    7), and the offset is ten at most.  [None] is the failure
    [DecodeFailed]. *)
Definition decode_size_and_position (data : bytes) : option (N * N) :=
  match read_varint data with
  | Some (size, position) =>
      if (size <? 2 ^ 32)%N then Some (size, N.of_nat position) else None
  | None => None
  end.

(** Modelled from the spec: the body of [decode_delimited], missing from the
    header.  Section 4.6: perform the size-and-position scan, then parse the
    payload bytes (of the scanned length) as a structured message through the
    schema layer [ParseFromString], failing on a parse error or if fewer
    payload bytes are available than declared. *)
Definition decode_delimited {Message : Type}
    (ParseFromString : bytes → option Message) (data : bytes) :
    option Message :=
  match decode_size_and_position data with
  | Some (size, position) =>
      let payload := drop (N.to_nat position) data in
      if decide (length payload < N.to_nat size)%nat then None
      else ParseFromString (take (N.to_nat size) payload)
  | None => None
  end.

(** A run of bytes that ends a variable-length integer: every byte but the
    last has its top bit set. *)
Fixpoint terminated (prefix : bytes) : bool :=
  match prefix with
  | [] => false
  | b :: prefix =>
      if N.testbit (Byte.to_N b) 7 then terminated prefix
      else match prefix with [] => true | _ => false end
  end.

(** The number a variable-length integer denotes: the seven-bit groups as
    digits in base 128, least significant first. *)
Fixpoint varint_value (prefix : bytes) : N :=
  match prefix with
  | [] => 0
  | b :: prefix => (Byte.to_N b mod 128 + 128 * varint_value prefix)%N
  end.

(** A complete variable-length integer for a length: it is terminated, takes
    ten bytes at most and denotes a number of the 32-bit result type. *)
Definition is_varint (prefix : bytes) : bool :=
  terminated prefix && bool_decide (length prefix ≤ max_varint_length)
    && (varint_value prefix <? 2 ^ 32)%N.

(** Modelled from the spec: the encoder's side of the same format (section
    1 assumes it, with mirror-image contracts), to name "the encoding of
    300". *)
Fixpoint encode_varint_upto (fuel : nat) (n : N) : bytes :=
  match fuel with
  | O => []
  | S fuel =>
      if (n <? 128)%N then [default Byte.x00 (Byte.of_N n)]
      else default Byte.x00 (Byte.of_N (128 + n mod 128))
             :: encode_varint_upto fuel (n / 128)
  end.

Definition encode_varint (n : N) : bytes :=
  encode_varint_upto (S (N.to_nat (N.log2 n))) n.

End decoder.

(** ** Vocabulary for the statements *)
Section Vocabulary.
Import decoder.
Context {Client : Type}.

(** [decoded client item v]: a fresh variable of type [T], decoded from
    [item], ends up holding [v]. *)
Definition decoded {T : Type} `{!Decoder Client T}
    (client : option Client) (item : bytes) (v : T) : Prop :=
  decode fresh item client = Returns v.

(** [throws T client item]: decoding [item] into a fresh variable of type
    [T] throws [DecodeFailed]. *)
Definition throws (T : Type) `{!Decoder Client T}
    (client : option Client) (item : bytes) : Prop :=
  ∃ t : T, decode fresh item client = DecodeFailed t.

(** Slot [i] of a tuple: the item at position [i], decoded with [client]
    into the slot holding [t], leaves [v] there. *)
Definition slot_decoded {T : Type} `{!Decoder Client T}
    (client : option Client) (items : list bytes) (i : nat) (t v : T) : Prop :=
  ∃ item, items !! i = Some item ∧ decode t item client = Returns v.

(** An entry whose key and value both decode, to the pair [kv]. *)
Definition entry_decoded {K V : Type}
    `{!Decoder Client K} `{!Decoder Client V}
    (client : option Client) (e : DictionaryEntry) (kv : K * V) : Prop :=
  decoded client (key e) kv.1 ∧ decoded client (value e) kv.2.

(** An entry whose key throws, or whose key decodes and whose value
    throws. *)
Definition entry_throws (K V : Type)
    `{!Decoder Client K} `{!Decoder Client V}
    (client : option Client) (e : DictionaryEntry) : Prop :=
  throws K client (key e) ∨
  ((∃ k : K, decoded client (key e) k) ∧ throws V client (value e)).

(** [dictionary[k] = v] for each pair in turn. *)
Definition assign_all {K V : Type} `{Countable K}
    (pairs : list (K * V)) (dictionary : gmap K V) : gmap K V :=
  foldl (λ m kv, <[kv.1 := kv.2]> m) dictionary pairs.

(** The ending of a sequence of calls in which each call is made only when
    the calls before it have returned. *)
Fixpoint first_ending (calls : list ending) : ending :=
  match calls with
  | [] => Returned
  | Returned :: calls => first_ending calls
  | e :: _ => e
  end.

(** [(k, v)] is the last pair of [pairs] with key [k]. *)
Definition last_seen {K V : Type} (pairs : list (K * V)) (k : K) (v : V) :
    Prop :=
  ∃ before after, pairs = before ++ (k, v) :: after ∧ k ∉ after.*1.

(** The overload for [T] overwrites its output: what a call returns does
    not depend on what the output variable held. *)
Definition overwrites (T : Type) `{!Decoder Client T} : Prop :=
  ∀ (t t' out : T) data c,
    decode t data c = Returns out → decode t' data c = Returns out.

(** The endings of the element decodes of a sequence or set, in the order
    of the items. *)
Definition item_endings (T : Type) `{!Decoder Client T}
    (client : option Client) (items : list bytes) : list ending :=
  (λ item, ending_of (decode (fresh : T) item client)) <$> items.

(** The endings of the key and value decodes of a mapping, in the order of
    the entries, the key of an entry before its value. *)
Definition entry_endings (K V : Type)
    `{!Decoder Client K} `{!Decoder Client V}
    (client : option Client) (entries : list DictionaryEntry) :
    list ending :=
  entries ≫= λ e, [ending_of (decode (fresh : K) (key e) client);
                   ending_of (decode (fresh : V) (value e) client)].

End Vocabulary.

(** The Object References held inside a decoded value. *)
Class References (Client T : Type) : Type :=
  references : T → list (decoder.Object Client).

Section Threading.
Import decoder.
Context {Client : Type}.

#[export] Instance Object_References : References Client (Object Client) :=
  λ o, [o].
#[export] Instance vector_References {T} `{!References Client T} :
  References Client (list T) :=
  λ l, l ≫= references.
#[export] Instance map_References {K V} `{Countable K}
  `{!References Client K} `{!References Client V} :
  References Client (gmap K V) :=
  λ m, map_to_list m ≫= λ kv : K * V, references kv.1 ++ references kv.2.
#[export] Instance set_References {T} `{Countable T}
  `{!References Client T} : References Client (gset T) :=
  λ s, elements s ≫= references.
#[export] Instance tuple1_References {T0} `{!References Client T0} :
  References Client (tuple1 T0) :=
  λ '(Tuple1 t0), references t0.
#[export] Instance tuple2_References {T0 T1}
  `{!References Client T0} `{!References Client T1} :
  References Client (tuple2 T0 T1) :=
  λ '(Tuple2 t0 t1), references t0 ++ references t1.
#[export] Instance tuple3_References {T0 T1 T2}
  `{!References Client T0} `{!References Client T1}
  `{!References Client T2} : References Client (tuple3 T0 T1 T2) :=
  λ '(Tuple3 t0 t1 t2), references t0 ++ references t1 ++ references t2.
#[export] Instance tuple4_References {T0 T1 T2 T3}
  `{!References Client T0} `{!References Client T1}
  `{!References Client T2} `{!References Client T3} :
  References Client (tuple4 T0 T1 T2 T3) :=
  λ '(Tuple4 t0 t1 t2 t3),
    references t0 ++ references t1 ++ references t2 ++ references t3.
#[export] Instance tuple5_References {T0 T1 T2 T3 T4}
  `{!References Client T0} `{!References Client T1}
  `{!References Client T2} `{!References Client T3}
  `{!References Client T4} : References Client (tuple5 T0 T1 T2 T3 T4) :=
  λ '(Tuple5 t0 t1 t2 t3 t4),
    references t0 ++ references t1 ++ references t2 ++ references t3
      ++ references t4.


End Threading.

(** ** A concrete schema layer and concrete scalars

    Used to run the decoders on explicit byte strings. *)
Module sample.
Import decoder.

(** Modelled from the spec: the external schema layer of section 6, which
    "parses a byte sequence into one of the recognized Envelope Message
    shapes".  The encoding taken here is the protobuf one for fields of wire
    type 2: a tag byte, a variable-length byte count, then that many bytes.
    The parse stops with the flag [false] at a truncated field or at another
    wire type, and keeps the fields read before it. *)
Fixpoint fields (fuel : nat) (data : bytes) : bool * list (byte * bytes) :=
  match data, fuel with
  | [], _ => (true, [])
  | _ :: _, O => (false, [])
  | tag :: data, S fuel =>
      if (N.land (Byte.to_N tag) 7 =? 2)%N then
        match read_varint data with
        | Some (size, n) =>
            let rest := drop n data in
            if decide (length rest < N.to_nat size)%nat then (false, [])
            else
              let '(ok, more) := fields fuel (drop (N.to_nat size) rest) in
              (ok, (tag, take (N.to_nat size) rest) :: more)
        | None => (false, [])
        end
      else (false, [])
  end.

(** The payloads of the fields with a given tag, in order. *)
Definition with_tag (tag : byte) (fs : list (byte * bytes)) : list bytes :=
  snd <$> filter (λ f, Byte.eqb (fst f) tag = true) fs.

(** [repeated bytes items = 1]: tag byte [0x0A]. *)
Definition repeated_bytes (data : bytes) : bool * list bytes :=
  let '(ok, fs) := fields (length data) data in
  (ok, with_tag Byte.x0a fs).

(** [bytes key = 1; bytes value = 2]: tag bytes [0x0A] and [0x12]; a field
    given twice keeps its last value, a field not given is empty. *)
Definition entry (data : bytes) : bool * DictionaryEntry :=
  let '(ok, fs) := fields (length data) data in
  (ok, {| key := default [] (last (with_tag Byte.x0a fs));
          value := default [] (last (with_tag Byte.x12 fs)) |}).

(** [repeated DictionaryEntry entries = 1]. *)
Definition repeated_entries (data : bytes) : bool * list DictionaryEntry :=
  let '(ok, raw) := repeated_bytes data in
  (ok && forallb (λ e, fst (entry e)) raw, (λ e, snd (entry e)) <$> raw).

Definition schema : Schema := {|
  List_ParseFromString := repeated_bytes;
  Dictionary_ParseFromString := repeated_entries;
  Set_ParseFromString := repeated_bytes;
  Tuple_ParseFromString := repeated_bytes
|}.

(** A client is named by a number here. *)
Definition Client : Type := nat.

(** Modelled from the spec: the scalar overload for [uint64], missing from
    the header.  Section 4.1: a variable-length integer, rejected when its
    magnitude is out of range for the type. *)
Definition uint64_Decoder : Decoder Client Z := {|
  fresh := 0%Z;
  decode value data _ :=
    match read_varint data with
    | Some (v, _) =>
        if (v <? 2 ^ 64)%N then Returns (Z.of_N v) else DecodeFailed value
    | None => DecodeFailed value
    end
|}.

(** Modelled from the spec: the scalar overload for [int32], missing from
    the header.  Section 4.1: a variable-length integer, here converted to
    the signed 32-bit type by two's complement. *)
Definition int32_Decoder : Decoder Client Z := {|
  fresh := 0%Z;
  decode value data _ :=
    match read_varint data with
    | Some (v, _) =>
        Returns ((Z.of_N v + 2 ^ 31) mod 2 ^ 32 - 2 ^ 31)%Z
    | None => DecodeFailed value
    end
|}.

Definition externals : Externals Client := {|
  decode_int32 := int32_Decoder;
  decode_uint64 := uint64_Decoder;
  Object_default := {| client := None; id := 0 |}
|}.


(** Inputs.  [items n] is an Envelope Message of [n] items, the one-byte
    encodings of 1 to [n]. *)
Definition item (b : byte) : bytes := [Byte.x0a; Byte.x01; b].

Definition items (n : nat) : bytes :=
  seq 1 n ≫= λ i, item (default Byte.x00 (Byte.of_N (N.of_nat i))).

(** Two items, both the encoding of 7. *)
Definition same_item_twice : bytes := item Byte.x07 ++ item Byte.x07.

(** Two items, then the byte [0x07], which starts no field: its wire type
    is 7. *)
Definition bad_tail : bytes := items 2 ++ [Byte.x07].

(** The encoding of 7, then an item whose byte [0x80] announces a second
    byte that is not there. *)
Definition second_item_bad : bytes := item Byte.x07 ++ item Byte.x80.

(** Two entries with the key 7: 7 to 8, then 7 to 9. *)
Definition duplicate_key : bytes :=
  [Byte.x0a; Byte.x06; Byte.x0a; Byte.x01; Byte.x07;
   Byte.x12; Byte.x01; Byte.x08;
   Byte.x0a; Byte.x06; Byte.x0a; Byte.x01; Byte.x07;
   Byte.x12; Byte.x01; Byte.x09].

(** The items of [items 2] in another order, one of them twice. *)
Definition shuffled : bytes := item Byte.x02 ++ item Byte.x01 ++ item Byte.x01.

(** One entry, 7 to 8. *)
Definition one_entry : bytes :=
  [Byte.x0a; Byte.x06; Byte.x0a; Byte.x01; Byte.x07;
   Byte.x12; Byte.x01; Byte.x08].

(** One entry whose key is the byte [0x80], which does not decode. *)
Definition bad_key : bytes :=
  [Byte.x0a; Byte.x06; Byte.x0a; Byte.x01; Byte.x80;
   Byte.x12; Byte.x01; Byte.x08].

(** A scalar overload that decodes as [uint64_Decoder] does with the null
    client and fails with any other. *)
Definition null_only_Decoder : Decoder Client Z := {|
  fresh := 0%Z;
  decode value data client :=
    match client with
    | None => decode (Decoder := uint64_Decoder) value data None
    | Some _ => DecodeFailed value
    end
|}.

(** A schema message for [decode_delimited]: the payload is accepted when it
    parses as a sequence of fields. *)
Definition ParseFromString (payload : bytes) : option (list (byte * bytes)) :=
  let '(ok, fs) := fields (length payload) payload in
  if ok then Some fs else None.

End sample.


(** * Properties *)

Import decoder.

#[local] Set Warnings "-clear-no-such-hyp".

#[local] Ltac outcome_cases m :=
  let E := fresh "E" in destruct m eqn:E; simpl in *; try discriminate.

Section Outcomes.
Context {S T : Type}.
Implicit Types (m : outcome T) (frame : T → S) (k : T → outcome S).

Lemma andthen_Returns m frame k out :
  andthen m frame k = Returns out ↔ ∃ x, m = Returns x ∧ k x = Returns out.
Proof.
  split.
  - outcome_cases m. eauto.
  - by intros (x & -> & Hk).
Qed.

Lemma andthen_DecodeFailed m frame k out :
  andthen m frame k = DecodeFailed out ↔
    (∃ x, m = DecodeFailed x ∧ out = frame x) ∨
    (∃ x, m = Returns x ∧ k x = DecodeFailed out).
Proof.
  split.
  - outcome_cases m; intros Hm; [right; eauto | left].
    injection Hm as <-. eauto.
  - by intros [(x & -> & ->) | (x & -> & Hk)].
Qed.

Lemma andthen_OutOfRange m frame k :
  andthen m frame k = OutOfRange ↔
    m = OutOfRange ∨ (∃ x, m = Returns x ∧ k x = OutOfRange).
Proof.
  split.
  - outcome_cases m; intros Hm; [right; eauto | by left].
  - by intros [-> | (x & -> & Hk)].
Qed.
End Outcomes.

Lemma convert_int32 (ty : integer_type) (x : Z) :
  holds_int32 ty → (- 2 ^ 31 ≤ x < 2 ^ 31)%Z → convert ty x = x.
Proof.
  intros [Hsigned Hbits] Hx. unfold convert. rewrite Hsigned.
  assert (Hhalf : (2 ^ 31 ≤ 2 ^ (bits ty - 1))%Z)
    by (apply Z.pow_le_mono_r; lia).
  assert (Hfull : (2 ^ bits ty = 2 * 2 ^ (bits ty - 1))%Z).
  { rewrite <- Z.pow_succ_r by lia. f_equal. lia. }
  rewrite Hfull. revert Hhalf. generalize (2 ^ (bits ty - 1))%Z.
  intros half Hhalf. rewrite Z.mod_small by lia. lia.
Qed.

Section Properties.
Context {Client : Type} {schema : Schema} {externals : Externals Client}.

Section VectorLoop.
Context {T : Type} `{!Decoder Client T}.
Implicit Types (vec out values : list T) (items : list bytes).

Lemma vector_loop_Returns vec items client out :
  vector_loop vec items client = Returns out ↔
    ∃ values, Forall2 (decoded client) items values ∧ out = vec ++ values.
Proof.
  revert vec. induction items as [|item items IH]; intros vec; simpl.
  - split.
    + intros [= <-]. exists []. by rewrite app_nil_r.
    + intros (values & Hall & ->). apply Forall2_nil_inv_l in Hall as ->.
      by rewrite app_nil_r.
  - rewrite andthen_Returns. split.
    + intros (v & Hv & Hloop). apply IH in Hloop as (values & Hall & ->).
      exists (v :: values). split; [by constructor |].
      by rewrite <- app_assoc.
    + intros (values & Hall & ->).
      apply Forall2_cons_inv_l in Hall as (v & rest & Hv & Hall & ->).
      exists v. split; [done |]. apply IH. exists rest.
      by rewrite <- app_assoc.
Qed.

Lemma vector_loop_DecodeFailed vec items client out :
  vector_loop vec items client = DecodeFailed out ↔
    ∃ before item after values,
      items = before ++ item :: after ∧
      Forall2 (decoded client) before values ∧
      throws T client item ∧ out = vec ++ values.
Proof.
  revert vec. induction items as [|item items IH]; intros vec; simpl.
  - split; [done |]. intros (before & ? & ? & ? & Hitems & _).
    by destruct before.
  - rewrite andthen_DecodeFailed. split.
    + intros [(t & Ht & ->) | (v & Hv & Hloop)].
      * exists [], item, items, []. rewrite app_nil_r.
        repeat split; [constructor | by exists t].
      * apply IH in Hloop
          as (before & bad & after & values & -> & Hall & Hbad & ->).
        exists (item :: before), bad, after, (v :: values).
        rewrite <- app_assoc. repeat split; [by constructor | done].
    + intros (before & bad & after & values & Hitems & Hall & Hbad & ->).
      destruct before as [|first before]; simplify_eq/=.
      * apply Forall2_nil_inv_l in Hall as ->. destruct Hbad as [t Ht].
        left. exists t. by rewrite app_nil_r.
      * apply Forall2_cons_inv_l in Hall as (v & rest & Hv & Hall & ->).
        right. exists v. split; [done |]. apply IH.
        exists before, bad, after, rest. by rewrite <- app_assoc.
Qed.
End VectorLoop.

Section SetLoop.
Context {T : Type} `{Countable T} `{!Decoder Client T}.
Implicit Types (set out : gset T) (values : list T) (items : list bytes).

Lemma set_loop_Returns set items client out :
  set_loop set items client = Returns out ↔
    ∃ values, Forall2 (decoded client) items values ∧
              out = list_to_set values ∪ set.
Proof.
  revert set. induction items as [|item items IH]; intros set; simpl.
  - split.
    + intros [= <-]. exists []. split; [done | set_solver].
    + intros (values & Hall & ->). apply Forall2_nil_inv_l in Hall as ->.
      f_equal. set_solver.
  - rewrite andthen_Returns. split.
    + intros (v & Hv & Hloop). apply IH in Hloop as (values & Hall & ->).
      exists (v :: values). split; [by constructor | set_solver].
    + intros (values & Hall & ->).
      apply Forall2_cons_inv_l in Hall as (v & rest & Hv & Hall & ->).
      exists v. split; [done |]. apply IH. exists rest.
      split; [done | set_solver].
Qed.

Lemma set_loop_DecodeFailed set items client out :
  set_loop set items client = DecodeFailed out ↔
    ∃ before item after values,
      items = before ++ item :: after ∧
      Forall2 (decoded client) before values ∧
      throws T client item ∧ out = list_to_set values ∪ set.
Proof.
  revert set. induction items as [|item items IH]; intros set; simpl.
  - split; [done |]. intros (before & ? & ? & ? & Hitems & _).
    by destruct before.
  - rewrite andthen_DecodeFailed. split.
    + intros [(t & Ht & ->) | (v & Hv & Hloop)].
      * exists [], item, items, [].
        repeat split; [constructor | by exists t | set_solver].
      * apply IH in Hloop
          as (before & bad & after & values & -> & Hall & Hbad & ->).
        exists (item :: before), bad, after, (v :: values).
        repeat split; [by constructor | done | set_solver].
    + intros (before & bad & after & values & Hitems & Hall & Hbad & ->).
      destruct before as [|first before]; simplify_eq/=.
      * apply Forall2_nil_inv_l in Hall as ->. destruct Hbad as [t Ht].
        left. exists t. split; [done | set_solver].
      * apply Forall2_cons_inv_l in Hall as (v & rest & Hv & Hall & ->).
        right. exists v. split; [done |]. apply IH.
        exists before, bad, after, rest.
        repeat split; [done | done | set_solver].
Qed.
End SetLoop.

Section Assignments.
Context {K V : Type} `{Countable K}.
Implicit Types (pairs : list (K * V)) (m : gmap K V).

Lemma assign_all_app pairs1 pairs2 m :
  assign_all (pairs1 ++ pairs2) m = assign_all pairs2 (assign_all pairs1 m).
Proof. apply foldl_app. Qed.

Lemma assign_all_cons k v pairs m :
  assign_all ((k, v) :: pairs) m = assign_all pairs (<[k := v]> m).
Proof. done. Qed.

Lemma assign_all_lookup_other pairs m k :
  k ∉ pairs.*1 → assign_all pairs m !! k = m !! k.
Proof.
  revert m. induction pairs as [|[k' v'] pairs IH]; intros m Hk; [done |].
  rewrite fmap_cons, not_elem_of_cons in Hk. destruct Hk as [Hne Hk].
  rewrite assign_all_cons, IH by done. by rewrite lookup_insert_ne.
Qed.

Lemma assign_all_lookup_last pairs m k v :
  last_seen pairs k v → assign_all pairs m !! k = Some v.
Proof.
  intros (before & after & -> & Hafter).
  rewrite assign_all_app, assign_all_cons.
  rewrite assign_all_lookup_other by done. apply lookup_insert_eq.
Qed.

Lemma last_seen_exists pairs k :
  k ∈ pairs.*1 → ∃ v, last_seen pairs k v.
Proof.
  induction pairs as [|[k' v'] pairs IH]; simpl; [by intros ?%elem_of_nil |].
  intros Hk. destruct (decide (k ∈ pairs.*1)) as [Hin | Hout].
  - destruct (IH Hin) as (v & before & after & -> & Hafter).
    exists v, ((k', v') :: before), after. by split.
  - apply elem_of_cons in Hk as [-> | Hk]; [| done].
    exists v', [], pairs. by split.
Qed.

Lemma assign_all_lookup pairs k v :
  assign_all pairs (∅ : gmap K V) !! k = Some v ↔ last_seen pairs k v.
Proof.
  split; [| apply assign_all_lookup_last].
  intros Hk. destruct (decide (k ∈ pairs.*1)) as [Hin | Hout].
  - destruct (last_seen_exists _ _ Hin) as [v' Hlast].
    rewrite (assign_all_lookup_last _ _ _ _ Hlast) in Hk. by simplify_eq.
  - by rewrite assign_all_lookup_other in Hk.
Qed.

Lemma assign_all_dom pairs m :
  dom (assign_all pairs m) = list_to_set pairs.*1 ∪ dom m.
Proof.
  revert m. induction pairs as [|[k v] pairs IH]; intros m.
  - set_solver.
  - rewrite assign_all_cons, IH, dom_insert_L. set_solver.
Qed.
End Assignments.

Section MapLoop.
Context {K V : Type} `{Countable K}.
Context `{!Decoder Client K} `{!Decoder Client V}.
Implicit Types (dictionary out : gmap K V) (pairs : list (K * V)).
Implicit Types (entries : list DictionaryEntry).

Lemma map_loop_Returns dictionary entries client out :
  map_loop dictionary entries client = Returns out ↔
    ∃ pairs, Forall2 (entry_decoded client) entries pairs ∧
             out = assign_all pairs dictionary.
Proof.
  revert dictionary.
  induction entries as [|e entries IH]; intros dictionary; simpl.
  - split.
    + intros [= <-]. by exists [].
    + intros (pairs & Hall & ->). by apply Forall2_nil_inv_l in Hall as ->.
  - rewrite andthen_Returns. setoid_rewrite andthen_Returns. split.
    + intros (k & Hk & v & Hv & Hloop).
      apply IH in Hloop as (pairs & Hall & ->).
      exists ((k, v) :: pairs). split; [by constructor | done].
    + intros (pairs & Hall & ->).
      apply Forall2_cons_inv_l in Hall as ([k v] & rest & [Hk Hv] & Hall & ->).
      exists k. split; [done |]. exists v. split; [done |].
      apply IH. by exists rest.
Qed.

Lemma map_loop_DecodeFailed dictionary entries client out :
  map_loop dictionary entries client = DecodeFailed out ↔
    ∃ before e after pairs,
      entries = before ++ e :: after ∧
      Forall2 (entry_decoded client) before pairs ∧
      entry_throws K V client e ∧ out = assign_all pairs dictionary.
Proof.
  revert dictionary.
  induction entries as [|e entries IH]; intros dictionary; simpl.
  - split; [done |]. intros (before & ? & ? & ? & Hentries & _).
    by destruct before.
  - rewrite andthen_DecodeFailed. setoid_rewrite andthen_DecodeFailed.
    split.
    + intros [(t & Ht & ->) | (k & Hk & [(t & Ht & ->) | (v & Hv & Hloop)])].
      * exists [], e, entries, [].
        repeat split; [constructor |]. left. by exists t.
      * exists [], e, entries, [].
        repeat split; [constructor |]. right. split; [by exists k |].
        by exists t.
      * apply IH in Hloop
          as (before & bad & after & pairs & -> & Hall & Hbad & ->).
        exists (e :: before), bad, after, ((k, v) :: pairs).
        repeat split; [| done]. by constructor.
    + intros (before & bad & after & pairs & Hentries & Hall & Hbad & ->).
      destruct before as [|first before]; simplify_eq/=.
      * apply Forall2_nil_inv_l in Hall as ->.
        destruct Hbad as [[t Ht] | [[k Hk] [t Ht]]].
        -- left. by exists t.
        -- right. exists k. split; [done |]. left. by exists t.
      * apply Forall2_cons_inv_l in Hall
          as ([k v] & rest & [Hk Hv] & Hall & ->).
        right. exists k. split; [done |]. right. exists v.
        split; [done |]. apply IH. by exists before, bad, after, rest.
Qed.
End MapLoop.

Lemma size_list_to_set_remove_dups {U : Type} `{Countable U}
    (values : list U) :
  size (list_to_set values : gset U) = length (remove_dups values).
Proof.
  rewrite <- (size_list_to_set (C := gset U)) by apply NoDup_remove_dups.
  f_equal. apply set_eq. intros v.
  by rewrite !elem_of_list_to_set, elem_of_remove_dups.
Qed.

Lemma remove_dups_length {A : Type} `{EqDecision A} (l : list A) :
  length (remove_dups l) ≤ length l ∧
  (length (remove_dups l) = length l ↔ NoDup l).
Proof.
  induction l as [|x l [IHle IHeq]]; simpl.
  - split; [done |]. split; [constructor | done].
  - destruct (decide_rel elem_of x l) as [Hin | Hnot]; simpl.
    + split; [lia |]. split; [lia |].
      intros Hnodup. by apply NoDup_cons in Hnodup as [? _].
    + split; [lia |]. rewrite NoDup_cons. split.
      * intros Hlength. split; [done |]. apply IHeq. lia.
      * intros [_ Hnodup]. apply IHeq in Hnodup. lia.
Qed.

Lemma filter_key_absent {K V : Type} `{EqDecision K}
    (l : list (K * V)) (k : K) :
  k ∉ l.*1 → filter (λ kv, kv.1 = k) l = [].
Proof.
  induction l as [|[k' v'] l IH]; [done |].
  rewrite fmap_cons, not_elem_of_cons. intros [Hne Hl].
  rewrite filter_cons_False; [by apply IH | by intros <-].
Qed.

Lemma filter_key_unique {K V : Type} `{EqDecision K}
    (l : list (K * V)) (k : K) (v : V) :
  NoDup l.*1 → (k, v) ∈ l → filter (λ kv, kv.1 = k) l = [(k, v)].
Proof.
  induction l as [|[k' v'] l IH]; [by intros _ ?%elem_of_nil |].
  rewrite fmap_cons. intros [Hk' Hl]%NoDup_cons [Heq | Hin]%elem_of_cons.
  - simplify_eq. rewrite filter_cons_True by done.
    by rewrite filter_key_absent.
  - rewrite filter_cons_False; [by apply IH |].
    simpl. intros ->. apply Hk', list_elem_of_fmap. by exists (k, v).
Qed.

Lemma slot_agree {T : Type} `{!Decoder Client T} (n : nat)
    (items items' : list bytes) (i : nat) (t : T) client :
  take n items = take n items' → (i < n)%nat →
  slot items i t client = slot items' i t client.
Proof.
  intros Htake Hi. unfold slot.
  by rewrite <- (lookup_take_lt items n i), Htake, lookup_take_lt.
Qed.

#[local] Ltac run_slots Hitems :=
  unfold slot; rewrite Hitems; simpl.


#[local] Ltac read_slots Hout :=
  unfold decode_tuple1, decode_tuple2, decode_tuple3, decode_tuple4,
    decode_tuple5, slot in Hout;
  repeat match type of Hout with
    | context [?l !! ?i] =>
        let E := fresh "E" in
        destruct (l !! i) eqn:E; simpl in Hout; [| done]
    | context [decode ?t ?d ?c] =>
        let E := fresh "E" in
        destruct (decode t d c) eqn:E; simpl in Hout; [| done | done]
    end;
  simplify_eq; repeat eexists; eauto.

#[local] Ltac slot_cases :=
  repeat match goal with
    | |- context [decode ?t ?d ?c] => destruct (decode t d c); simpl
    end.

Section Claims.
Context {T : Type} {T_decode : Decoder Client T}.
Context {U : Type} {U_eq : EqDecision U} {U_countable : Countable U}.
Context {U_decode : Decoder Client U}.
Context {K V : Type} {K_eq : EqDecision K} {K_countable : Countable K}.
Context {K_decode : Decoder Client K} {V_decode : Decoder Client V}.
Context {T0 T1 T2 T3 T4 : Type}.
Context {T0_decode : Decoder Client T0} {T1_decode : Decoder Client T1}.
Context {T2_decode : Decoder Client T2} {T3_decode : Decoder Client T3}.
Context {T4_decode : Decoder Client T4}.

(** C4 (amended).  A sequence decode that succeeds yields one element per
    item of the parsed Envelope Message, the element at each position being
    the decode of the item at that position; and it does succeed whenever
    every item decodes.  A set decode succeeds whenever every item decodes,
    and then yields exactly the set of the decoded item values: equal values
    collapse to one entry, so the size is the number of distinct decoded
    values, never more than the number of items and equal to it exactly when
    the decoded values are pairwise distinct.  Likewise a mapping decode
    succeeds whenever the key and the value of every entry decode, and then
    has one entry for each distinct decoded key: never more than the number
    of entries, and as many exactly when the decoded keys are pairwise
    distinct.  A tuple decode of arity N that succeeds had N items or more
    to read, and its slot at each position below N is the decode of the
    item at that position. *)
Theorem decode_keeps_the_items :
  (∀ (vec out : list T) data client,
     decode_vector vec data client = Returns out →
     length out = length (List_ParseFromString data).2 ∧
     Forall2 (decoded client) (List_ParseFromString data).2 out ∧
     ∀ i item, (List_ParseFromString data).2 !! i = Some item →
       ∃ v, out !! i = Some v ∧ decoded client item v) ∧
  (∀ (vec values : list T) data client,
     Forall2 (decoded client) (List_ParseFromString data).2 values →
     decode_vector vec data client = Returns values) ∧
  (∀ (set out : gset U) data client,
     decode_set set data client = Returns out →
     ∃ values : list U,
       Forall2 (decoded client) (Set_ParseFromString data).2 values ∧
       out = list_to_set values ∧
       (∀ v, v ∈ out ↔ v ∈ values) ∧
       size out = length (remove_dups values) ∧
       size out ≤ length (Set_ParseFromString data).2 ∧
       (size out = length (Set_ParseFromString data).2 ↔ NoDup values)) ∧
  (∀ (set : gset U) (values : list U) data client,
     Forall2 (decoded client) (Set_ParseFromString data).2 values →
     decode_set set data client = Returns (list_to_set values)) ∧
  (∀ (dictionary out : gmap K V) data client,
     decode_map dictionary data client = Returns out →
     ∃ pairs : list (K * V),
       Forall2 (entry_decoded client)
         (Dictionary_ParseFromString data).2 pairs ∧
       out = assign_all pairs ∅ ∧
       dom out = list_to_set pairs.*1 ∧
       size out = length (remove_dups pairs.*1) ∧
       size out ≤ length (Dictionary_ParseFromString data).2 ∧
       (size out = length (Dictionary_ParseFromString data).2 ↔
        NoDup pairs.*1)) ∧
  (∀ (dictionary : gmap K V) (pairs : list (K * V)) data client,
     Forall2 (entry_decoded client)
       (Dictionary_ParseFromString data).2 pairs →
     decode_map dictionary data client = Returns (assign_all pairs ∅)) ∧
  (∀ (t0 v0 : T0) data client,
     decode_tuple1 (Tuple1 t0) data client = Returns (Tuple1 v0) →
     1 ≤ length (Tuple_ParseFromString data).2 ∧
     slot_decoded client (Tuple_ParseFromString data).2 0 t0 v0) ∧
  (∀ (t0 v0 : T0) (t1 v1 : T1) data client,
     decode_tuple2 (Tuple2 t0 t1) data client = Returns (Tuple2 v0 v1) →
     2 ≤ length (Tuple_ParseFromString data).2 ∧
     slot_decoded client (Tuple_ParseFromString data).2 0 t0 v0 ∧
     slot_decoded client (Tuple_ParseFromString data).2 1 t1 v1) ∧
  (∀ (t0 v0 : T0) (t1 v1 : T1) (t2 v2 : T2) data client,
     decode_tuple3 (Tuple3 t0 t1 t2) data client
       = Returns (Tuple3 v0 v1 v2) →
     3 ≤ length (Tuple_ParseFromString data).2 ∧
     slot_decoded client (Tuple_ParseFromString data).2 0 t0 v0 ∧
     slot_decoded client (Tuple_ParseFromString data).2 1 t1 v1 ∧
     slot_decoded client (Tuple_ParseFromString data).2 2 t2 v2) ∧
  (∀ (t0 v0 : T0) (t1 v1 : T1) (t2 v2 : T2) (t3 v3 : T3) data client,
     decode_tuple4 (Tuple4 t0 t1 t2 t3) data client
       = Returns (Tuple4 v0 v1 v2 v3) →
     4 ≤ length (Tuple_ParseFromString data).2 ∧
     slot_decoded client (Tuple_ParseFromString data).2 0 t0 v0 ∧
     slot_decoded client (Tuple_ParseFromString data).2 1 t1 v1 ∧
     slot_decoded client (Tuple_ParseFromString data).2 2 t2 v2 ∧
     slot_decoded client (Tuple_ParseFromString data).2 3 t3 v3) ∧
  (∀ (t0 v0 : T0) (t1 v1 : T1) (t2 v2 : T2) (t3 v3 : T3) (t4 v4 : T4)
     data client,
     decode_tuple5 (Tuple5 t0 t1 t2 t3 t4) data client
       = Returns (Tuple5 v0 v1 v2 v3 v4) →
     5 ≤ length (Tuple_ParseFromString data).2 ∧
     slot_decoded client (Tuple_ParseFromString data).2 0 t0 v0 ∧
     slot_decoded client (Tuple_ParseFromString data).2 1 t1 v1 ∧
     slot_decoded client (Tuple_ParseFromString data).2 2 t2 v2 ∧
     slot_decoded client (Tuple_ParseFromString data).2 3 t3 v3 ∧
     slot_decoded client (Tuple_ParseFromString data).2 4 t4 v4).
Proof.
  repeat apply conj.
  - intros vec out data client Hout.
    apply vector_loop_Returns in Hout as (values & Hall & ->). simpl.
    split; [symmetry; by eapply Forall2_length |]. split; [done |].
    intros i item Hi. by eapply Forall2_lookup_l.
  - intros vec values data client Hall. apply vector_loop_Returns.
    by exists values.
  - intros set out data client Hout.
    apply set_loop_Returns in Hout as (values & Hall & ->).
    exists values. rewrite (right_id_L ∅ (∪)).
    split; [done |]. split; [done |].
    split; [intros v; apply elem_of_list_to_set |].
    rewrite size_list_to_set_remove_dups.
    rewrite (Forall2_length _ _ _ Hall).
    split; [done |]. apply remove_dups_length.
  - intros set values data client Hall. apply set_loop_Returns.
    exists values. split; [done | set_solver].
  - intros dictionary out data client Hout.
    apply map_loop_Returns in Hout as (pairs & Hall & ->).
    exists pairs. split; [done |]. split; [done |].
    assert (Hdom : dom (assign_all pairs (∅ : gmap K V))
                     = list_to_set pairs.*1)
      by (rewrite assign_all_dom; set_solver).
    split; [done |]. rewrite <- size_dom, Hdom.
    rewrite size_list_to_set_remove_dups.
    rewrite (Forall2_length _ _ _ Hall), <- (length_fmap fst pairs).
    split; [done |]. apply remove_dups_length.
  - intros dictionary pairs data client Hall. apply map_loop_Returns.
    by exists pairs.
  - intros t0 v0 data client Hout. read_slots Hout.
    by eapply lookup_lt_Some.
  - intros t0 v0 t1 v1 data client Hout. read_slots Hout.
    by eapply lookup_lt_Some.
  - intros t0 v0 t1 v1 t2 v2 data client Hout. read_slots Hout.
    by eapply lookup_lt_Some.
  - intros t0 v0 t1 v1 t2 v2 t3 v3 data client Hout. read_slots Hout.
    by eapply lookup_lt_Some.
  - intros t0 v0 t1 v1 t2 v2 t3 v3 t4 v4 data client Hout.
    read_slots Hout. by eapply lookup_lt_Some.
Qed.

(** C5.  In a mapping decode that succeeds, every entry has its key
    decoded from the entry's key bytes and its value decoded from the
    entry's value bytes, each into a variable of its own; the dictionary
    maps a key to a value exactly when that pair is the last decoded pair
    with that key, and it has exactly one entry for each decoded key. *)
Theorem decode_map_last_key_wins
    (dictionary out : gmap K V) data client
    (Hout : decode_map dictionary data client = Returns out) :
  ∃ pairs : list (K * V),
    Forall2 (entry_decoded client) (Dictionary_ParseFromString data).2
      pairs ∧
    (∀ k v, out !! k = Some v ↔ last_seen pairs k v) ∧
    dom out = list_to_set pairs.*1 ∧
    (∀ k v, last_seen pairs k v →
       filter (λ kv, kv.1 = k) (map_to_list out) = [(k, v)]).
Proof.
  apply map_loop_Returns in Hout as (pairs & Hall & ->).
  exists pairs. split; [done |].
  split; [intros k v; apply assign_all_lookup |].
  split; [rewrite assign_all_dom; set_solver |].
  intros k v Hlast. apply filter_key_unique.
  - apply NoDup_fst_map_to_list.
  - by apply elem_of_map_to_list, assign_all_lookup.
Qed.

(** C8.  What a caller-provided vector, map or set held before the call
    has no influence on the outcome of the decode, be it a return or a
    failure, nor on the contents the container is left with. *)
Theorem decode_discards_prior_contents :
  (∀ (prior prior' : list T) data client,
     decode_vector prior data client = decode_vector prior' data client) ∧
  (∀ (prior prior' : gmap K V) data client,
     decode_map prior data client = decode_map prior' data client) ∧
  (∀ (prior prior' : gset U) data client,
     decode_set prior data client = decode_set prior' data client) ∧
  (∀ (prior out : list T) data client,
     decode_vector prior data client = Returns out →
     ∀ v, v ∈ out → ∃ item,
       item ∈ (List_ParseFromString data).2 ∧ decoded client item v) ∧
  (∀ (prior out : gmap K V) data client,
     decode_map prior data client = Returns out →
     ∀ k v, out !! k = Some v → ∃ e,
       e ∈ (Dictionary_ParseFromString data).2 ∧
       entry_decoded client e (k, v)) ∧
  (∀ (prior out : gset U) data client,
     decode_set prior data client = Returns out →
     ∀ v, v ∈ out → ∃ item,
       item ∈ (Set_ParseFromString data).2 ∧ decoded client item v).
Proof.
  split; [done |]. split; [done |]. split; [done |].
  split; [| split].
  - intros prior out data client Hout v Hv.
    apply vector_loop_Returns in Hout as (values & Hall & ->).
    simpl in Hv. apply list_elem_of_lookup in Hv as [i Hi].
    destruct (Forall2_lookup_r _ _ _ _ _ Hall Hi) as (item & Hitem & Hdec).
    exists item. split; [| done]. apply list_elem_of_lookup. by exists i.
  - intros prior out data client Hout k v Hkv.
    apply map_loop_Returns in Hout as (pairs & Hall & ->).
    apply assign_all_lookup in Hkv as (before & after & -> & _).
    assert (Hin : (k, v) ∈ before ++ (k, v) :: after)
      by (apply elem_of_app; right; left).
    apply list_elem_of_lookup in Hin as [i Hi].
    destruct (Forall2_lookup_r _ _ _ _ _ Hall Hi) as (e & He & Hdec).
    exists e. split; [| done]. apply list_elem_of_lookup. by exists i.
  - intros prior out data client Hout v Hv.
    apply set_loop_Returns in Hout as (values & Hall & ->).
    rewrite (right_id_L ∅ (∪)), elem_of_list_to_set in Hv.
    apply list_elem_of_lookup in Hv as [i Hi].
    destruct (Forall2_lookup_r _ _ _ _ _ Hall Hi) as (item & Hitem & Hdec).
    exists item. split; [| done]. apply list_elem_of_lookup. by exists i.
Qed.
(** C3 (amended).  A sequence, mapping or set decode fails exactly when
    the decode of one of the items fails after the items before it have
    decoded; the failure ends the whole call, no later item is decoded,
    and the caller's container is left holding the elements decoded
    before the failing item, and nothing of what it held before. *)
Theorem failed_decode_keeps_decoded_prefix :
  (∀ (prior out : list T) data client,
     decode_vector prior data client = DecodeFailed out ↔
     ∃ before item after,
       (List_ParseFromString data).2 = before ++ item :: after ∧
       Forall2 (decoded client) before out ∧ throws T client item) ∧
  (∀ (prior out : gmap K V) data client,
     decode_map prior data client = DecodeFailed out ↔
     ∃ before e after pairs,
       (Dictionary_ParseFromString data).2 = before ++ e :: after ∧
       Forall2 (entry_decoded client) before pairs ∧
       entry_throws K V client e ∧ out = assign_all pairs ∅) ∧
  (∀ (prior out : gset U) data client,
     decode_set prior data client = DecodeFailed out ↔
     ∃ before item after values,
       (Set_ParseFromString data).2 = before ++ item :: after ∧
       Forall2 (decoded client) before values ∧
       throws U client item ∧ out = list_to_set values).
Proof.
  split; [| split].
  - intros prior out data client. unfold decode_vector.
    rewrite vector_loop_DecodeFailed. simpl. naive_solver.
  - intros prior out data client. unfold decode_map.
    by rewrite map_loop_DecodeFailed.
  - intros prior out data client. unfold decode_set.
    rewrite set_loop_DecodeFailed.
    by setoid_rewrite (right_id_L (∅ : gset U) (∪)).
Qed.

(** C2 (amended).  The report of the Envelope Message parser is not
    consulted.  The outcome of a container decode is fixed by the items
    the parser left in the message: two inputs that leave the same items
    decode alike, whatever the parser reported for each.  A sequence,
    mapping or set decode fails with [DecodeFailed] only when the decode
    of one of those items fails. *)
Theorem parse_report_is_ignored :
  (∀ (vec vec' : list T) data data' client,
     (List_ParseFromString data).2 = (List_ParseFromString data').2 →
     decode_vector vec data client = decode_vector vec' data' client) ∧
  (∀ (dictionary dictionary' : gmap K V) data data' client,
     (Dictionary_ParseFromString data).2
       = (Dictionary_ParseFromString data').2 →
     decode_map dictionary data client
       = decode_map dictionary' data' client) ∧
  (∀ (set set' : gset U) data data' client,
     (Set_ParseFromString data).2 = (Set_ParseFromString data').2 →
     decode_set set data client = decode_set set' data' client) ∧
  (∀ (tuple : tuple1 T0) data data' client,
     (Tuple_ParseFromString data).2 = (Tuple_ParseFromString data').2 →
     decode_tuple1 tuple data client = decode_tuple1 tuple data' client) ∧
  (∀ (tuple : tuple2 T0 T1) data data' client,
     (Tuple_ParseFromString data).2 = (Tuple_ParseFromString data').2 →
     decode_tuple2 tuple data client = decode_tuple2 tuple data' client) ∧
  (∀ (tuple : tuple3 T0 T1 T2) data data' client,
     (Tuple_ParseFromString data).2 = (Tuple_ParseFromString data').2 →
     decode_tuple3 tuple data client = decode_tuple3 tuple data' client) ∧
  (∀ (tuple : tuple4 T0 T1 T2 T3) data data' client,
     (Tuple_ParseFromString data).2 = (Tuple_ParseFromString data').2 →
     decode_tuple4 tuple data client = decode_tuple4 tuple data' client) ∧
  (∀ (tuple : tuple5 T0 T1 T2 T3 T4) data data' client,
     (Tuple_ParseFromString data).2 = (Tuple_ParseFromString data').2 →
     decode_tuple5 tuple data client = decode_tuple5 tuple data' client) ∧
  (∀ (vec : list T) data client,
     ending_of (decode_vector vec data client) = Thrown →
     Exists (throws T client) (List_ParseFromString data).2) ∧
  (∀ (dictionary : gmap K V) data client,
     ending_of (decode_map dictionary data client) = Thrown →
     Exists (entry_throws K V client)
       (Dictionary_ParseFromString data).2) ∧
  (∀ (set : gset U) data client,
     ending_of (decode_set set data client) = Thrown →
     Exists (throws U client) (Set_ParseFromString data).2).
Proof.
  repeat split.
  - intros * Hitems. unfold decode_vector. by rewrite Hitems.
  - intros * Hitems. unfold decode_map. by rewrite Hitems.
  - intros * Hitems. unfold decode_set. by rewrite Hitems.
  - intros * Hitems. unfold decode_tuple1. by rewrite Hitems.
  - intros * Hitems. unfold decode_tuple2. by rewrite Hitems.
  - intros * Hitems. unfold decode_tuple3. by rewrite Hitems.
  - intros * Hitems. unfold decode_tuple4. by rewrite Hitems.
  - intros * Hitems. unfold decode_tuple5. by rewrite Hitems.
  - intros vec data client Hend.
    outcome_cases (decode_vector vec data client).
    apply vector_loop_DecodeFailed in E
      as (before & item & after & values & -> & _ & Hbad & _).
    apply Exists_app. right. by left.
  - intros dictionary data client Hend.
    outcome_cases (decode_map dictionary data client).
    apply map_loop_DecodeFailed in E
      as (before & e & after & pairs & -> & _ & Hbad & _).
    apply Exists_app. right. by left.
  - intros set data client Hend.
    outcome_cases (decode_set set data client).
    apply set_loop_DecodeFailed in E
      as (before & item & after & values & -> & _ & Hbad & _).
    apply Exists_app. right. by left.
Qed.

(** C1 (amended).  A tuple decode of arity N does not compare the item
    count with N.  On an Envelope Message with N items or more, the
    slots are decoded in order from the items at positions 0 to N-1, each
    one only when those before it have returned, and the decode ends as
    the first slot decode that does not return ends: it fails with
    [DecodeFailed] exactly when that slot decode fails, and returns when
    all N return. *)
Theorem decode_tuple_fails_with_its_slots :
  (∀ (t0 : T0) d0 surplus data client,
     (Tuple_ParseFromString data).2 = d0 :: surplus →
     ending_of (decode_tuple1 (Tuple1 t0) data client)
       = first_ending [ending_of (decode t0 d0 client)]) ∧
  (∀ (t0 : T0) (t1 : T1) d0 d1 surplus data client,
     (Tuple_ParseFromString data).2 = d0 :: d1 :: surplus →
     ending_of (decode_tuple2 (Tuple2 t0 t1) data client)
       = first_ending [ending_of (decode t0 d0 client);
                       ending_of (decode t1 d1 client)]) ∧
  (∀ (t0 : T0) (t1 : T1) (t2 : T2) d0 d1 d2 surplus data client,
     (Tuple_ParseFromString data).2 = d0 :: d1 :: d2 :: surplus →
     ending_of (decode_tuple3 (Tuple3 t0 t1 t2) data client)
       = first_ending [ending_of (decode t0 d0 client);
                       ending_of (decode t1 d1 client);
                       ending_of (decode t2 d2 client)]) ∧
  (∀ (t0 : T0) (t1 : T1) (t2 : T2) (t3 : T3) d0 d1 d2 d3 surplus
      data client,
     (Tuple_ParseFromString data).2 = d0 :: d1 :: d2 :: d3 :: surplus →
     ending_of (decode_tuple4 (Tuple4 t0 t1 t2 t3) data client)
       = first_ending [ending_of (decode t0 d0 client);
                       ending_of (decode t1 d1 client);
                       ending_of (decode t2 d2 client);
                       ending_of (decode t3 d3 client)]) ∧
  (∀ (t0 : T0) (t1 : T1) (t2 : T2) (t3 : T3) (t4 : T4)
      d0 d1 d2 d3 d4 surplus data client,
     (Tuple_ParseFromString data).2
       = d0 :: d1 :: d2 :: d3 :: d4 :: surplus →
     ending_of (decode_tuple5 (Tuple5 t0 t1 t2 t3 t4) data client)
       = first_ending [ending_of (decode t0 d0 client);
                       ending_of (decode t1 d1 client);
                       ending_of (decode t2 d2 client);
                       ending_of (decode t3 d3 client);
                       ending_of (decode t4 d4 client)]).
Proof.
  repeat split; intros * Hitems.
  - unfold decode_tuple1. run_slots Hitems. by slot_cases.
  - unfold decode_tuple2. run_slots Hitems. by slot_cases.
  - unfold decode_tuple3. run_slots Hitems. by slot_cases.
  - unfold decode_tuple4. run_slots Hitems. by slot_cases.
  - unfold decode_tuple5. run_slots Hitems. by slot_cases.
Qed.

(** C10.  A tuple decode of arity N reads the items at positions 0 to
    N-1 and no other: two Envelope Messages with the same first N items
    give the same outcome, and on a message that starts with N items
    which decode, whatever items follow, the decode returns the tuple of
    the N decoded values. *)
Theorem decode_tuple_reads_first_items :
  (∀ (tuple : tuple1 T0) data data' client,
     take 1 (Tuple_ParseFromString data).2 =
       take 1 (Tuple_ParseFromString data').2 →
     decode_tuple1 tuple data client = decode_tuple1 tuple data' client) ∧
  (∀ (tuple : tuple2 T0 T1) data data' client,
     take 2 (Tuple_ParseFromString data).2 =
       take 2 (Tuple_ParseFromString data').2 →
     decode_tuple2 tuple data client = decode_tuple2 tuple data' client) ∧
  (∀ (tuple : tuple3 T0 T1 T2) data data' client,
     take 3 (Tuple_ParseFromString data).2 =
       take 3 (Tuple_ParseFromString data').2 →
     decode_tuple3 tuple data client = decode_tuple3 tuple data' client) ∧
  (∀ (tuple : tuple4 T0 T1 T2 T3) data data' client,
     take 4 (Tuple_ParseFromString data).2 =
       take 4 (Tuple_ParseFromString data').2 →
     decode_tuple4 tuple data client = decode_tuple4 tuple data' client) ∧
  (∀ (tuple : tuple5 T0 T1 T2 T3 T4) data data' client,
     take 5 (Tuple_ParseFromString data).2 =
       take 5 (Tuple_ParseFromString data').2 →
     decode_tuple5 tuple data client = decode_tuple5 tuple data' client) ∧
  (∀ t0 v0 d0 surplus data client,
     (Tuple_ParseFromString data).2 = d0 :: surplus →
     decode t0 d0 client = Returns v0 →
     decode_tuple1 (Tuple1 t0) data client = Returns (Tuple1 (v0 : T0))) ∧
  (∀ t0 t1 v0 v1 d0 d1 surplus data client,
     (Tuple_ParseFromString data).2 = d0 :: d1 :: surplus →
     decode t0 d0 client = Returns v0 →
     decode t1 d1 client = Returns v1 →
     decode_tuple2 (Tuple2 t0 t1) data client
       = Returns (Tuple2 (v0 : T0) (v1 : T1))) ∧
  (∀ t0 t1 t2 v0 v1 v2 d0 d1 d2 surplus data client,
     (Tuple_ParseFromString data).2 = d0 :: d1 :: d2 :: surplus →
     decode t0 d0 client = Returns v0 →
     decode t1 d1 client = Returns v1 →
     decode t2 d2 client = Returns v2 →
     decode_tuple3 (Tuple3 t0 t1 t2) data client
       = Returns (Tuple3 (v0 : T0) (v1 : T1) (v2 : T2))) ∧
  (∀ t0 t1 t2 t3 v0 v1 v2 v3 d0 d1 d2 d3 surplus data client,
     (Tuple_ParseFromString data).2 = d0 :: d1 :: d2 :: d3 :: surplus →
     decode t0 d0 client = Returns v0 →
     decode t1 d1 client = Returns v1 →
     decode t2 d2 client = Returns v2 →
     decode t3 d3 client = Returns v3 →
     decode_tuple4 (Tuple4 t0 t1 t2 t3) data client
       = Returns (Tuple4 (v0 : T0) (v1 : T1) (v2 : T2) (v3 : T3))) ∧
  (∀ t0 t1 t2 t3 t4 v0 v1 v2 v3 v4 d0 d1 d2 d3 d4 surplus data client,
     (Tuple_ParseFromString data).2
       = d0 :: d1 :: d2 :: d3 :: d4 :: surplus →
     decode t0 d0 client = Returns v0 →
     decode t1 d1 client = Returns v1 →
     decode t2 d2 client = Returns v2 →
     decode t3 d3 client = Returns v3 →
     decode t4 d4 client = Returns v4 →
     decode_tuple5 (Tuple5 t0 t1 t2 t3 t4) data client
       = Returns
           (Tuple5 (v0 : T0) (v1 : T1) (v2 : T2) (v3 : T3) (v4 : T4))).
Proof.
  repeat split.
  - intros [t0] data data' client Htake. unfold decode_tuple1.
    by rewrite !(slot_agree 1 _ _ _ _ _ Htake) by lia.
  - intros [t0 t1] data data' client Htake. unfold decode_tuple2.
    by rewrite !(slot_agree 2 _ _ _ _ _ Htake) by lia.
  - intros [t0 t1 t2] data data' client Htake. unfold decode_tuple3.
    by rewrite !(slot_agree 3 _ _ _ _ _ Htake) by lia.
  - intros [t0 t1 t2 t3] data data' client Htake. unfold decode_tuple4.
    by rewrite !(slot_agree 4 _ _ _ _ _ Htake) by lia.
  - intros [t0 t1 t2 t3 t4] data data' client Htake. unfold decode_tuple5.
    by rewrite !(slot_agree 5 _ _ _ _ _ Htake) by lia.
  - intros * Hitems E0. unfold decode_tuple1. run_slots Hitems.
    by rewrite E0.
  - intros * Hitems E0 E1. unfold decode_tuple2. run_slots Hitems.
    by rewrite E0, E1.
  - intros * Hitems E0 E1 E2. unfold decode_tuple3. run_slots Hitems.
    by rewrite E0, E1, E2.
  - intros * Hitems E0 E1 E2 E3. unfold decode_tuple4. run_slots Hitems.
    by rewrite E0, E1, E2, E3.
  - intros * Hitems E0 E1 E2 E3 E4. unfold decode_tuple5.
    run_slots Hitems. by rewrite E0, E1, E2, E3, E4.
Qed.

(** C6.  [decode_enum] decodes an [int32] with the scalar overload and
    converts the number to the enumeration type without comparing it with
    the enumerators: it returns exactly when the scalar decode returns, with
    the number converted to the underlying type of the enumeration.  When
    that type holds every [int32], as the [int] of an enumeration declared
    without an underlying type does, the value has the decoded number itself
    as its underlying value, whether or not the number is one of the
    declared enumerators.  [decode_enum] fails, leaving the output untouched, exactly
    when the scalar decode fails. *)
Theorem decode_enum_keeps_the_number (E : enum_type) :
  (∀ (value : Enum E) data client x,
     decode_local decode_int32 data client = Returns x →
     decode_enum value data client = Returns (static_cast E x)) ∧
  (∀ (value out : Enum E) data client,
     decode_enum value data client = Returns out →
     ∃ x, decode_local decode_int32 data client = Returns x ∧
          out = static_cast E x) ∧
  (∀ (value : Enum E) data client x,
     holds_int32 (underlying_type E) →
     (- 2 ^ 31 ≤ x < 2 ^ 31)%Z →
     decode_local decode_int32 data client = Returns x →
     ∃ out, decode_enum value data client = Returns out ∧
            underlying E out = x) ∧
  (∀ (value out : Enum E) data client,
     decode_enum value data client = DecodeFailed out ↔
     out = value ∧
     ending_of (decode_local decode_int32 data client) = Thrown).
Proof.
  split; [| split; [| split]].
  - intros value data client x Hx. unfold decode_enum. by rewrite Hx.
  - intros value out data client Hout. unfold decode_enum in Hout.
    apply andthen_Returns in Hout as (x & Hx & Hout).
    exists x. split; [done | by simplify_eq].
  - intros value data client x Hholds Hx Hdecode.
    exists (static_cast E x).
    split; [unfold decode_enum; by rewrite Hdecode |].
    simpl. by apply convert_int32.
  - intros value out data client. unfold decode_enum.
    rewrite andthen_DecodeFailed.
    destruct (decode_local decode_int32 data client); naive_solver.
Qed.

End Claims.

(** ** Further properties of the overloads *)

Lemma first_ending_Undefined (calls : list ending) :
  first_ending calls = Undefined → Undefined ∈ calls.
Proof.
  induction calls as [|[] calls IH]; simpl; [done | | done |].
  - intros Hrest. right. by apply IH.
  - intros _. by left.
Qed.

Section Extras.
Context {T : Type} {T_decode : Decoder Client T}.
Context {U : Type} {U_eq : EqDecision U} {U_countable : Countable U}.
Context {U_decode : Decoder Client U}.
Context {K V : Type} {K_eq : EqDecision K} {K_countable : Countable K}.
Context {K_decode : Decoder Client K} {V_decode : Decoder Client V}.
Context {T0 T1 T2 T3 T4 : Type}.
Context {T0_decode : Decoder Client T0} {T1_decode : Decoder Client T1}.
Context {T2_decode : Decoder Client T2} {T3_decode : Decoder Client T3}.
Context {T4_decode : Decoder Client T4}.

Lemma vector_loop_ending (vec : list T) items client :
  ending_of (vector_loop vec items client)
    = first_ending (item_endings T client items).
Proof.
  revert vec. induction items as [|item items IH]; intros vec; [done |].
  simpl. destruct (decode fresh item client); simpl; [apply IH | done..].
Qed.

Lemma set_loop_ending (set : gset U) items client :
  ending_of (set_loop set items client)
    = first_ending (item_endings U client items).
Proof.
  revert set. induction items as [|item items IH]; intros set; [done |].
  simpl. destruct (decode fresh item client); simpl; [apply IH | done..].
Qed.

Lemma map_loop_ending (dictionary : gmap K V) entries client :
  ending_of (map_loop dictionary entries client)
    = first_ending (entry_endings K V client entries).
Proof.
  revert dictionary.
  induction entries as [|e entries IH]; intros dictionary; [done |].
  simpl. destruct (decode fresh (key e) client); simpl; [| done..].
  destruct (decode fresh (value e) client); simpl; [apply IH | done..].
Qed.

(** X1.  The loops of the sequence, set and mapping overloads stay within
    the items of the message: such a decode ends as the first element decode
    that does not return ends (for a mapping, the key of an entry before its
    value), and returns when all return.  So it never calls [items(i)] or
    [entries(i)] past the end: when no element decode does so, neither does
    the container decode. *)
Theorem container_loops_stay_in_range :
  (∀ (vec : list T) data client,
     ending_of (decode_vector vec data client)
       = first_ending (item_endings T client (List_ParseFromString data).2)) ∧
  (∀ (set : gset U) data client,
     ending_of (decode_set set data client)
       = first_ending (item_endings U client (Set_ParseFromString data).2)) ∧
  (∀ (dictionary : gmap K V) data client,
     ending_of (decode_map dictionary data client)
       = first_ending
           (entry_endings K V client (Dictionary_ParseFromString data).2)) ∧
  (∀ (vec : list T) data client,
     Undefined ∉ item_endings T client (List_ParseFromString data).2 →
     ending_of (decode_vector vec data client) ≠ Undefined) ∧
  (∀ (set : gset U) data client,
     Undefined ∉ item_endings U client (Set_ParseFromString data).2 →
     ending_of (decode_set set data client) ≠ Undefined) ∧
  (∀ (dictionary : gmap K V) data client,
     Undefined ∉ entry_endings K V client
                   (Dictionary_ParseFromString data).2 →
     ending_of (decode_map dictionary data client) ≠ Undefined).
Proof.
  split; [intros; apply vector_loop_ending |].
  split; [intros; apply set_loop_ending |].
  split; [intros; apply map_loop_ending |].
  split; [| split].
  - intros vec data client Hin Hend. apply Hin, first_ending_Undefined.
    by rewrite <- (vector_loop_ending []).
  - intros set data client Hin Hend. apply Hin, first_ending_Undefined.
    by rewrite <- (set_loop_ending ∅).
  - intros dictionary data client Hin Hend.
    apply Hin, first_ending_Undefined. by rewrite <- (map_loop_ending ∅).
Qed.

(** X2.  An Envelope Message without items decodes to the empty vector,
    set or dictionary, whatever the container held; and a decode returns an
    empty container for such a message only. *)
Theorem empty_message_empty_container :
  (∀ (prior : list T) data client,
     (List_ParseFromString data).2 = [] →
     decode_vector prior data client = Returns []) ∧
  (∀ (prior : list T) data client,
     decode_vector prior data client = Returns [] →
     (List_ParseFromString data).2 = []) ∧
  (∀ (prior : gset U) data client,
     (Set_ParseFromString data).2 = [] →
     decode_set prior data client = Returns ∅) ∧
  (∀ (prior : gset U) data client,
     decode_set prior data client = Returns ∅ →
     (Set_ParseFromString data).2 = []) ∧
  (∀ (prior : gmap K V) data client,
     (Dictionary_ParseFromString data).2 = [] →
     decode_map prior data client = Returns ∅) ∧
  (∀ (prior : gmap K V) data client,
     decode_map prior data client = Returns ∅ →
     (Dictionary_ParseFromString data).2 = []).
Proof.
  repeat split.
  - intros prior data client Hitems. unfold decode_vector. by rewrite Hitems.
  - intros prior data client Hout.
    apply vector_loop_Returns in Hout as (values & Hall & Hout).
    simpl in Hout. subst values. by apply Forall2_nil_inv_r in Hall.
  - intros prior data client Hitems. unfold decode_set. by rewrite Hitems.
  - intros prior data client Hout.
    apply set_loop_Returns in Hout as (values & Hall & Hout).
    destruct Hall as [|item v items values Hv Hall]; [done |].
    exfalso. apply (not_elem_of_empty (C := gset U) v).
    rewrite Hout. set_solver.
  - intros prior data client Hitems. unfold decode_map. by rewrite Hitems.
  - intros prior data client Hout.
    apply map_loop_Returns in Hout as (pairs & Hall & Hout).
    destruct Hall as [|e [k v] entries pairs Hkv Hall]; [done |].
    exfalso. assert (Hk : k ∈ dom (∅ : gmap K V)); [| set_solver].
    rewrite Hout, assign_all_dom. set_solver.
Qed.

(** X3.  The object-handle overload decodes the identifier before it
    assigns anything: it ends as the [uint64] scalar decode ends, and when
    that decode fails the caller's object keeps both its identifier and its
    client. *)
Theorem failed_decode_Object_assigns_nothing :
  (∀ (object : Object Client) data client,
     ending_of (decode_Object object data client)
       = ending_of (decode_local decode_uint64 data client)) ∧
  (∀ (object out : Object Client) data client,
     decode_Object object data client = DecodeFailed out → out = object).
Proof.
  split.
  - intros object data client. unfold decode_Object.
    by destruct (decode_local decode_uint64 data client).
  - intros object out data client Hout. unfold decode_Object in Hout.
    apply andthen_DecodeFailed in Hout as [(n & _ & ->) | (n & _ & Hout)];
      done.
Qed.

#[local] Ltac few_items Hlength :=
  match type of Hlength with
  | context [length ?l] =>
      let Hitems := fresh "Hitems" in
      unfold slot; destruct l as [|? [|? [|? [|? [|? ?]]]]] eqn:Hitems;
      simpl in Hlength; try lia; simpl; slot_cases; done
  end.

(** X4.  A tuple decode on an Envelope Message with fewer items than the
    arity never returns: it reads the items in order and, unless the decode
    of one of those present fails first, calls [items(i)] past the end.  On
    a message without items that is the first thing it does. *)
Theorem decode_tuple_of_too_few_items :
  (∀ (tuple : tuple1 T0) data client,
     (length (Tuple_ParseFromString data).2 < 1)%nat →
     ending_of (decode_tuple1 tuple data client) ≠ Returned) ∧
  (∀ (tuple : tuple2 T0 T1) data client,
     (length (Tuple_ParseFromString data).2 < 2)%nat →
     ending_of (decode_tuple2 tuple data client) ≠ Returned) ∧
  (∀ (tuple : tuple3 T0 T1 T2) data client,
     (length (Tuple_ParseFromString data).2 < 3)%nat →
     ending_of (decode_tuple3 tuple data client) ≠ Returned) ∧
  (∀ (tuple : tuple4 T0 T1 T2 T3) data client,
     (length (Tuple_ParseFromString data).2 < 4)%nat →
     ending_of (decode_tuple4 tuple data client) ≠ Returned) ∧
  (∀ (tuple : tuple5 T0 T1 T2 T3 T4) data client,
     (length (Tuple_ParseFromString data).2 < 5)%nat →
     ending_of (decode_tuple5 tuple data client) ≠ Returned) ∧
  (∀ (tuple : tuple1 T0) data client,
     (Tuple_ParseFromString data).2 = [] →
     decode_tuple1 tuple data client = OutOfRange) ∧
  (∀ (tuple : tuple2 T0 T1) data client,
     (Tuple_ParseFromString data).2 = [] →
     decode_tuple2 tuple data client = OutOfRange) ∧
  (∀ (tuple : tuple3 T0 T1 T2) data client,
     (Tuple_ParseFromString data).2 = [] →
     decode_tuple3 tuple data client = OutOfRange) ∧
  (∀ (tuple : tuple4 T0 T1 T2 T3) data client,
     (Tuple_ParseFromString data).2 = [] →
     decode_tuple4 tuple data client = OutOfRange) ∧
  (∀ (tuple : tuple5 T0 T1 T2 T3 T4) data client,
     (Tuple_ParseFromString data).2 = [] →
     decode_tuple5 tuple data client = OutOfRange).
Proof.
  repeat split.
  - intros [t0] data client Hlength. unfold decode_tuple1.
    few_items Hlength.
  - intros [t0 t1] data client Hlength. unfold decode_tuple2.
    few_items Hlength.
  - intros [t0 t1 t2] data client Hlength. unfold decode_tuple3.
    few_items Hlength.
  - intros [t0 t1 t2 t3] data client Hlength. unfold decode_tuple4.
    few_items Hlength.
  - intros [t0 t1 t2 t3 t4] data client Hlength. unfold decode_tuple5.
    few_items Hlength.
  - intros [t0] data client Hitems. unfold decode_tuple1.
    by run_slots Hitems.
  - intros [t0 t1] data client Hitems. unfold decode_tuple2.
    by run_slots Hitems.
  - intros [t0 t1 t2] data client Hitems. unfold decode_tuple3.
    by run_slots Hitems.
  - intros [t0 t1 t2 t3] data client Hitems. unfold decode_tuple4.
    by run_slots Hitems.
  - intros [t0 t1 t2 t3 t4] data client Hitems. unfold decode_tuple5.
    by run_slots Hitems.
Qed.

#[local] Ltac rerun_slots Hout :=
  simpl in Hout |- *; unfold slot in Hout |- *;
  repeat match type of Hout with
    | context [?l !! ?i] => destruct (l !! i); simpl in Hout |- *; [| done]
    | context [decode ?t ?d ?c] =>
        let E := fresh "E" in
        destruct (decode t d c) eqn:E; simpl in Hout; [| done | done];
        match goal with
        | Hs : _ |- _ => rewrite (Hs _ _ _ _ _ E); simpl
        end
    end;
  done.

(** X5.  What a decode returns does not depend on what the output variable
    held, for every overload of the header: the object-handle overload and
    the vector, map and set overloads write their result from scratch, and a
    tuple overload does so as soon as the overloads of its slots do (the
    slots are decoded in place, so what a slot overload reads of its slot
    shows through). *)
Theorem returned_value_ignores_prior_contents :
  overwrites (Object Client) ∧
  overwrites (list T) ∧
  overwrites (gmap K V) ∧
  overwrites (gset U) ∧
  (overwrites T0 → overwrites (tuple1 T0)) ∧
  (overwrites T0 → overwrites T1 → overwrites (tuple2 T0 T1)) ∧
  (overwrites T0 → overwrites T1 → overwrites T2 →
   overwrites (tuple3 T0 T1 T2)) ∧
  (overwrites T0 → overwrites T1 → overwrites T2 → overwrites T3 →
   overwrites (tuple4 T0 T1 T2 T3)) ∧
  (overwrites T0 → overwrites T1 → overwrites T2 → overwrites T3 →
   overwrites T4 → overwrites (tuple5 T0 T1 T2 T3 T4)).
Proof.
  split; [| split; [| split; [| split]]];
    [| by intros t t' out data c Hout; exact Hout..|].
  - intros object object' out data c Hout. simpl in *.
    unfold decode_Object in *.
    by destruct (decode_local decode_uint64 data c).
  - repeat split.
    + intros Hs0 [t0] [t0'] out data c Hout. rerun_slots Hout.
    + intros Hs0 Hs1 [t0 t1] [t0' t1'] out data c Hout. rerun_slots Hout.
    + intros Hs0 Hs1 Hs2 [t0 t1 t2] [t0' t1' t2'] out data c Hout.
      rerun_slots Hout.
    + intros Hs0 Hs1 Hs2 Hs3 [t0 t1 t2 t3] [t0' t1' t2' t3'] out data c Hout.
      rerun_slots Hout.
    + intros Hs0 Hs1 Hs2 Hs3 Hs4 [t0 t1 t2 t3 t4] [t0' t1' t2' t3' t4']
        out data c Hout.
      rerun_slots Hout.
Qed.

Lemma decoded_exists_all {A : Type} {A_decode : Decoder Client A}
    (client : option Client) (items : list bytes) :
  (∀ item, item ∈ items → ∃ v : A, decoded client item v) →
  ∃ values : list A, Forall2 (decoded client) items values.
Proof.
  induction items as [|item items IH]; intros Hall; [by exists [] |].
  destruct (Hall item) as [v Hv]; [by left |].
  destruct IH as [values Hvalues]; [intros ? ?; apply Hall; by right |].
  exists (v :: values). by constructor.
Qed.

Lemma decoded_values_elem_of {A : Type} {A_decode : Decoder Client A}
    (client : option Client) (items : list bytes) (values : list A) (v : A) :
  Forall2 (decoded client) items values →
  v ∈ values ↔ ∃ item, item ∈ items ∧ decoded client item v.
Proof.
  intros Hall. split.
  - intros [i Hi]%list_elem_of_lookup.
    destruct (Forall2_lookup_r _ _ _ _ _ Hall Hi) as (item & Hitem & Hv).
    exists item. split; [| done]. apply list_elem_of_lookup. by exists i.
  - intros (item & [i Hi]%list_elem_of_lookup & Hv).
    destruct (Forall2_lookup_l _ _ _ _ _ Hall Hi) as (v' & Hv' & Hdec).
    unfold decoded in *. rewrite Hv in Hdec. simplify_eq.
    apply list_elem_of_lookup. by exists i.
Qed.

(** X6.  A set decode does not depend on the order of the items nor on how
    often an item occurs: two Envelope Messages with the same items, in any
    order and number, decode to the same set. *)
Theorem decode_set_ignores_order
    (set set' out : gset U) (data data' : bytes) (client : option Client)
    (Hsame : ∀ item, item ∈ (Set_ParseFromString data).2 ↔
                     item ∈ (Set_ParseFromString data').2)
    (Hout : decode_set set data client = Returns out) :
  decode_set set' data' client = Returns out.
Proof.
  apply set_loop_Returns in Hout as (values & Hall & ->).
  destruct (decoded_exists_all (A := U) client (Set_ParseFromString data').2)
    as [values' Hall'].
  { intros item Hitem%Hsame.
    apply list_elem_of_lookup in Hitem as [i Hi].
    destruct (Forall2_lookup_l _ _ _ _ _ Hall Hi) as (v & _ & Hv). eauto. }
  apply set_loop_Returns. exists values'. split; [done |].
  f_equal. apply set_eq. intros v. rewrite !elem_of_list_to_set.
  rewrite (decoded_values_elem_of _ _ _ _ Hall).
  rewrite (decoded_values_elem_of _ _ _ _ Hall'). naive_solver.
Qed.

Lemma vector_loop_app (vec : list T) items1 items2 client :
  vector_loop vec (items1 ++ items2) client
    = andthen (vector_loop vec items1 client) (λ vec1, vec1)
        (λ vec1, vector_loop vec1 items2 client).
Proof.
  revert vec. induction items1 as [|item items1 IH]; intros vec; [done |].
  simpl. destruct (decode fresh item client); simpl; [apply IH | done..].
Qed.

Lemma set_loop_app (set : gset U) items1 items2 client :
  set_loop set (items1 ++ items2) client
    = andthen (set_loop set items1 client) (λ set1, set1)
        (λ set1, set_loop set1 items2 client).
Proof.
  revert set. induction items1 as [|item items1 IH]; intros set; [done |].
  simpl. destruct (decode fresh item client); simpl; [apply IH | done..].
Qed.

Lemma map_loop_app (dictionary : gmap K V) entries1 entries2 client :
  map_loop dictionary (entries1 ++ entries2) client
    = andthen (map_loop dictionary entries1 client) (λ dictionary1, dictionary1)
        (λ dictionary1, map_loop dictionary1 entries2 client).
Proof.
  revert dictionary.
  induction entries1 as [|e entries1 IH]; intros dictionary; [done |].
  simpl. destruct (decode fresh (key e) client); simpl; [| done..].
  destruct (decode fresh (value e) client); simpl; [apply IH | done..].
Qed.

Lemma vector_loop_from (vec out : list T) items client :
  vector_loop [] items client = Returns out →
  vector_loop vec items client = Returns (vec ++ out).
Proof.
  intros (values & Hall & ->)%vector_loop_Returns.
  apply vector_loop_Returns. by exists values.
Qed.

Lemma vector_loop_from_failed (vec out : list T) items client :
  vector_loop [] items client = DecodeFailed out →
  vector_loop vec items client = DecodeFailed (vec ++ out).
Proof.
  intros (before & item & after & values & -> & Hall & Hbad & ->)
    %vector_loop_DecodeFailed.
  apply vector_loop_DecodeFailed. by exists before, item, after, values.
Qed.

Lemma set_loop_from (set out : gset U) items client :
  set_loop ∅ items client = Returns out →
  set_loop set items client = Returns (set ∪ out).
Proof.
  intros (values & Hall & ->)%set_loop_Returns.
  apply set_loop_Returns. exists values. split; [done | set_solver].
Qed.

Lemma assign_all_union (pairs : list (K * V)) (m : gmap K V) :
  assign_all pairs m = assign_all pairs ∅ ∪ m.
Proof.
  revert m. induction pairs as [|[k v] pairs IH]; intros m.
  - unfold assign_all. simpl. by rewrite (left_id_L ∅ (∪)).
  - rewrite !assign_all_cons, IH, (IH (<[k:=v]> ∅)).
    rewrite insert_empty, <- (assoc_L (∪)).
    by rewrite <- insert_union_singleton_l.
Qed.

Lemma map_loop_from (dictionary out : gmap K V) entries client :
  map_loop ∅ entries client = Returns out →
  map_loop dictionary entries client = Returns (out ∪ dictionary).
Proof.
  intros (pairs & Hall & ->)%map_loop_Returns.
  apply map_loop_Returns. exists pairs. split; [done |].
  symmetry. apply assign_all_union.
Qed.

(** X7.  Decoding is compositional in the items.  When the items of a
    message are those of a first message followed by those of a second, and
    both decode, the whole decodes to the two vectors one after the other,
    to the union of the two sets, or to the second dictionary completed by
    the entries of the first for the keys it lacks.  When the first fails,
    the whole fails the same way, and when only the second sequence fails,
    the whole fails holding the first vector and what the second had
    decoded. *)
Theorem decode_of_joined_items :
  (∀ (prior out1 out2 : list T) data data1 data2 client,
     (List_ParseFromString data).2
       = (List_ParseFromString data1).2 ++ (List_ParseFromString data2).2 →
     decode_vector prior data1 client = Returns out1 →
     decode_vector prior data2 client = Returns out2 →
     decode_vector prior data client = Returns (out1 ++ out2)) ∧
  (∀ (prior out1 : list T) data data1 data2 client,
     (List_ParseFromString data).2
       = (List_ParseFromString data1).2 ++ (List_ParseFromString data2).2 →
     decode_vector prior data1 client = DecodeFailed out1 →
     decode_vector prior data client = DecodeFailed out1) ∧
  (∀ (prior out1 out2 : list T) data data1 data2 client,
     (List_ParseFromString data).2
       = (List_ParseFromString data1).2 ++ (List_ParseFromString data2).2 →
     decode_vector prior data1 client = Returns out1 →
     decode_vector prior data2 client = DecodeFailed out2 →
     decode_vector prior data client = DecodeFailed (out1 ++ out2)) ∧
  (∀ (prior out1 out2 : gset U) data data1 data2 client,
     (Set_ParseFromString data).2
       = (Set_ParseFromString data1).2 ++ (Set_ParseFromString data2).2 →
     decode_set prior data1 client = Returns out1 →
     decode_set prior data2 client = Returns out2 →
     decode_set prior data client = Returns (out1 ∪ out2)) ∧
  (∀ (prior out1 : gset U) data data1 data2 client,
     (Set_ParseFromString data).2
       = (Set_ParseFromString data1).2 ++ (Set_ParseFromString data2).2 →
     decode_set prior data1 client = DecodeFailed out1 →
     decode_set prior data client = DecodeFailed out1) ∧
  (∀ (prior out1 out2 : gmap K V) data data1 data2 client,
     (Dictionary_ParseFromString data).2
       = (Dictionary_ParseFromString data1).2
           ++ (Dictionary_ParseFromString data2).2 →
     decode_map prior data1 client = Returns out1 →
     decode_map prior data2 client = Returns out2 →
     decode_map prior data client = Returns (out2 ∪ out1)) ∧
  (∀ (prior out1 : gmap K V) data data1 data2 client,
     (Dictionary_ParseFromString data).2
       = (Dictionary_ParseFromString data1).2
           ++ (Dictionary_ParseFromString data2).2 →
     decode_map prior data1 client = DecodeFailed out1 →
     decode_map prior data client = DecodeFailed out1).
Proof.
  repeat split.
  - intros * Hitems H1 H2. unfold decode_vector in *.
    rewrite Hitems, vector_loop_app, H1. simpl. by apply vector_loop_from.
  - intros * Hitems H1. unfold decode_vector in *.
    by rewrite Hitems, vector_loop_app, H1.
  - intros * Hitems H1 H2. unfold decode_vector in *.
    rewrite Hitems, vector_loop_app, H1. simpl.
    by apply vector_loop_from_failed.
  - intros * Hitems H1 H2. unfold decode_set in *.
    rewrite Hitems, set_loop_app, H1. simpl. by apply set_loop_from.
  - intros * Hitems H1. unfold decode_set in *.
    by rewrite Hitems, set_loop_app, H1.
  - intros * Hitems H1 H2. unfold decode_map in *.
    rewrite Hitems, map_loop_app, H1. simpl. by apply map_loop_from.
  - intros * Hitems H1. unfold decode_map in *.
    by rewrite Hitems, map_loop_app, H1.
Qed.

(** X9.  A set decode is the sequence decode of the same items with the
    order forgotten: on a set message and a list message with the same
    items, the set decode returns the set of the elements of the vector the
    sequence decode returns, and fails, where that one fails, holding the
    set of the elements it had decoded. *)
Theorem decode_set_forgets_the_order
    (vec : list U) (set : gset U) (data data' : bytes)
    (client : option Client)
    (Hitems : (Set_ParseFromString data').2 = (List_ParseFromString data).2) :
  (∀ out : list U,
     decode_vector vec data client = Returns out →
     decode_set set data' client = Returns (list_to_set out)) ∧
  (∀ out : list U,
     decode_vector vec data client = DecodeFailed out →
     decode_set set data' client = DecodeFailed (list_to_set out)) ∧
  (∀ out' : gset U,
     decode_set set data' client = Returns out' →
     ∃ out : list U,
       decode_vector vec data client = Returns out ∧ out' = list_to_set out).
Proof.
  unfold decode_vector, decode_set. rewrite Hitems. split; [| split].
  - intros out (values & Hall & ->)%vector_loop_Returns.
    apply set_loop_Returns. exists values. split; [done | set_solver].
  - intros out (before & item & after & values & Hsplit & Hall & Hbad & ->)
      %vector_loop_DecodeFailed.
    apply set_loop_DecodeFailed. exists before, item, after, values.
    repeat split; [done.. | set_solver].
  - intros out' (values & Hall & ->)%set_loop_Returns.
    exists values. split; [| set_solver].
    apply vector_loop_Returns. by exists values.
Qed.

End Extras.

Section Locality.
Context {T : Type} (T_decode T_decode' : Decoder Client T).
Context {U : Type} {U_eq : EqDecision U} {U_countable : Countable U}.
Context (U_decode U_decode' : Decoder Client U).
Context {K V : Type} {K_eq : EqDecision K} {K_countable : Countable K}.
Context (K_decode K_decode' : Decoder Client K).
Context (V_decode V_decode' : Decoder Client V).

(** X8.  The sequence, set and mapping overloads call the element overload
    on the items of the message only, each time on a variable declared for
    the call and with the caller's [client]: with two element overloads that
    behave alike in those calls, however they differ elsewhere, for instance
    with another client, the container decode has the same outcome. *)
Theorem element_overload_is_called_on_items_only :
  (∀ (vec vec' : list T) data client,
     (∀ item, item ∈ (List_ParseFromString data).2 →
        decode_local T_decode item client
          = decode_local T_decode' item client) →
     @decode_vector Client schema T T_decode vec data client
       = @decode_vector Client schema T T_decode' vec' data client) ∧
  (∀ (set set' : gset U) data client,
     (∀ item, item ∈ (Set_ParseFromString data).2 →
        decode_local U_decode item client
          = decode_local U_decode' item client) →
     @decode_set Client schema U U_eq U_countable U_decode set data client
       = @decode_set Client schema U U_eq U_countable U_decode' set' data
           client) ∧
  (∀ (dictionary dictionary' : gmap K V) data client,
     (∀ e, e ∈ (Dictionary_ParseFromString data).2 →
        decode_local K_decode (key e) client
          = decode_local K_decode' (key e) client ∧
        decode_local V_decode (value e) client
          = decode_local V_decode' (value e) client) →
     @decode_map Client schema K V K_eq K_countable K_decode V_decode
       dictionary data client
       = @decode_map Client schema K V K_eq K_countable K_decode' V_decode'
           dictionary' data client).
Proof.
  split; [| split].
  - intros vec vec' data client. unfold decode_vector, decode_local.
    generalize (@nil T). induction (List_ParseFromString data).2
      as [|item items IH]; intros acc Hsame; [done |].
    simpl. rewrite (Hsame item) by by left.
    destruct (decode fresh item client); simpl; [| done..].
    apply IH. intros ? ?. apply Hsame. by right.
  - intros set set' data client. unfold decode_set, decode_local.
    generalize (∅ : gset U). induction (Set_ParseFromString data).2
      as [|item items IH]; intros acc Hsame; [done |].
    simpl. rewrite (Hsame item) by by left.
    destruct (decode fresh item client); simpl; [| done..].
    apply IH. intros ? ?. apply Hsame. by right.
  - intros dictionary dictionary' data client.
    unfold decode_map, decode_local.
    generalize (∅ : gmap K V). induction (Dictionary_ParseFromString data).2
      as [|e entries IH]; intros acc Hsame; [done |].
    simpl. destruct (Hsame e) as [-> ->]; [by left |].
    destruct (decode fresh (key e) client); simpl; [| done..].
    destruct (decode fresh (value e) client); simpl; [| done..].
    apply IH. intros ? ?. apply Hsame. by right.
Qed.
End Locality.

End Properties.

Section Varint.
Local Open Scope N_scope.

Lemma byte_top_bit (b : byte) :
  N.testbit (Byte.to_N b) 7 = (128 <=? Byte.to_N b).
Proof. by destruct b. Qed.

Lemma lor_groups (x v : N) :
  N.lor (N.land x 127) (N.shiftl v 7) = x mod 128 + 128 * v.
Proof.
  change 127 with (N.ones 7). rewrite N.land_ones, N.shiftl_mul_pow2.
  change (2 ^ 7) with 128. rewrite (N.mul_comm v).
  rewrite N.add_nocarry_lxor, N.lxor_lor; [done | |].
  all: apply N.bits_inj; intros i; rewrite N.land_spec, N.bits_0.
  all: destruct (decide (i < 7)) as [Hlt | Hge].
  all: try (rewrite (N.mul_comm 128); change 128 with (2 ^ 7);
            rewrite N.mul_pow2_bits_low by done; apply andb_false_r).
  all: change 128 with (2 ^ 7); rewrite N.mod_pow2_bits_high by lia; done.
Qed.

Lemma read_varint_upto_prefix (limit : nat) (prefix rest : bytes) :
  terminated prefix = true →
  (length prefix ≤ limit)%nat →
  read_varint_upto limit (prefix ++ rest)
    = Some (varint_value prefix, length prefix).
Proof.
  revert limit. induction prefix as [|b prefix IH]; intros limit; [done |].
  destruct limit as [|limit]; simpl; [lia |].
  rewrite byte_top_bit. destruct (128 <=? Byte.to_N b) eqn:Hb.
  - intros Hrest Hlength. rewrite (IH limit Hrest) by lia.
    by rewrite lor_groups.
  - destruct prefix; [| done]. intros _ _. simpl.
    apply N.leb_gt in Hb. rewrite N.mod_small by done.
    do 2 f_equal. lia.
Qed.

Lemma read_varint_upto_Some (limit : nat) (data : bytes) (v : N) (n : nat) :
  read_varint_upto limit data = Some (v, n) →
  terminated (take n data) = true ∧ varint_value (take n data) = v ∧
  (n ≤ limit)%nat ∧ length (take n data) = n.
Proof.
  revert data v n. induction limit as [|limit IH]; intros data v n; [done |].
  destruct data as [|b data]; simpl; [done |].
  rewrite byte_top_bit. destruct (128 <=? Byte.to_N b) eqn:Hb.
  - destruct (read_varint_upto limit data) as [[v' n']|] eqn:Hrest; [| done].
    intros [= <- <-]. destruct (IH _ _ _ Hrest) as (Hend & Hvalue & Hn & Hlen).
    simpl. rewrite byte_top_bit, Hb, Hvalue, Hlen, lor_groups.
    repeat split; [done | lia].
  - intros [= <- <-]. simpl. rewrite byte_top_bit, Hb.
    apply N.leb_gt in Hb. rewrite N.mod_small by done.
    repeat split; lia.
Qed.

Lemma is_varint_spec (prefix : bytes) :
  is_varint prefix = true ↔
    terminated prefix = true ∧ (length prefix ≤ max_varint_length)%nat ∧
    varint_value prefix < 2 ^ 32.
Proof.
  unfold is_varint.
  rewrite !andb_true_iff, bool_decide_eq_true, N.ltb_lt. naive_solver.
Qed.

Lemma scan_prefix (prefix rest : bytes) :
  is_varint prefix = true →
  decode_size_and_position (prefix ++ rest)
    = Some (varint_value prefix, N.of_nat (length prefix)).
Proof.
  intros (Hend & Hlength & Hvalue)%is_varint_spec.
  unfold decode_size_and_position, read_varint.
  rewrite read_varint_upto_prefix by done.
  by rewrite (proj2 (N.ltb_lt _ _) Hvalue).
Qed.

Lemma decode_delimited_prefix {Message : Type}
    (ParseFromString : bytes → option Message) (prefix payload : bytes) :
  is_varint prefix = true →
  decode_delimited ParseFromString (prefix ++ payload)
    = if decide (length payload < N.to_nat (varint_value prefix))%nat
      then None
      else ParseFromString (take (N.to_nat (varint_value prefix)) payload).
Proof.
  intros Hprefix. unfold decode_delimited.
  by rewrite scan_prefix, Nat2N.id, drop_app_length.
Qed.

(** C9.  On a buffer that begins with a complete variable-length integer,
    whatever follows it, the size-and-position scan returns the value the
    integer denotes and the number of bytes of the prefix, which is the
    offset where the payload begins; and the scan succeeds on such buffers
    only.  The encoding of 300 is the two bytes [0xAC 0x02]: followed by any
    payload the scan gives value 300 and offset 2.  The delimited decode of
    a complete prefix followed by as many payload bytes as it declares hands
    exactly those bytes to the schema layer and succeeds with its result,
    and fails when fewer bytes follow: so it does with 300 and with 299
    payload bytes after the encoding of 300. *)
Theorem size_and_position_scan :
  (∀ prefix rest : bytes,
     is_varint prefix = true →
     decode_size_and_position (prefix ++ rest)
       = Some (varint_value prefix, N.of_nat (length prefix))) ∧
  (∀ (data : bytes) (size position : N),
     decode_size_and_position data = Some (size, position) →
     ∃ prefix rest : bytes,
       data = prefix ++ rest ∧ is_varint prefix = true ∧
       size = varint_value prefix ∧ position = N.of_nat (length prefix)) ∧
  encode_varint 300 = [Byte.xac; Byte.x02] ∧
  (∀ payload : bytes,
     decode_size_and_position (encode_varint 300 ++ payload)
       = Some (300, 2)) ∧
  (∀ (Message : Type) (ParseFromString : bytes → option Message)
      (prefix payload : bytes),
     is_varint prefix = true →
     length payload = N.to_nat (varint_value prefix) →
     decode_delimited ParseFromString (prefix ++ payload)
       = ParseFromString payload) ∧
  (∀ (Message : Type) (ParseFromString : bytes → option Message)
      (prefix payload : bytes),
     is_varint prefix = true →
     (length payload < N.to_nat (varint_value prefix))%nat →
     decode_delimited ParseFromString (prefix ++ payload) = None) ∧
  (∀ (Message : Type) (ParseFromString : bytes → option Message)
      (payload : bytes) (message : Message),
     length payload = 300%nat →
     ParseFromString payload = Some message →
     decode_delimited ParseFromString (encode_varint 300 ++ payload)
       = Some message) ∧
  (∀ (Message : Type) (ParseFromString : bytes → option Message)
      (payload : bytes),
     length payload = 299%nat →
     decode_delimited ParseFromString (encode_varint 300 ++ payload)
       = None).
Proof.
  assert (H300 : is_varint (encode_varint 300) = true) by reflexivity.
  split; [apply scan_prefix |].
  split; [| split; [done |]; split; [| split; [| split; [| split]]]].
  - intros data size position Hscan.
    unfold decode_size_and_position, read_varint in Hscan.
    destruct (read_varint_upto max_varint_length data) as [[v n]|] eqn:Hread;
      [| done].
    destruct (v <? 2 ^ 32) eqn:Hv; [| done]. injection Hscan as <- <-.
    apply read_varint_upto_Some in Hread as (Hend & Hvalue & Hn & Hlength).
    exists (take n data), (drop n data). rewrite take_drop, Hlength.
    split; [done |]. split; [| done]. apply is_varint_spec.
    rewrite Hvalue, Hlength. by apply N.ltb_lt in Hv.
  - intros payload. by rewrite (scan_prefix _ _ H300).
  - intros Message ParseFromString prefix payload Hprefix Hlength.
    rewrite decode_delimited_prefix by done.
    rewrite decide_False by lia. by rewrite take_ge by lia.
  - intros Message ParseFromString prefix payload Hprefix Hlength.
    rewrite decode_delimited_prefix by done. by rewrite decide_True.
  - intros Message ParseFromString payload message Hlength Hparse.
    rewrite (decode_delimited_prefix _ _ _ H300).
    change (N.to_nat (varint_value (encode_varint 300))) with 300%nat.
    rewrite decide_False by lia. by rewrite take_ge by lia.
  - intros Message ParseFromString payload Hlength.
    rewrite (decode_delimited_prefix _ _ _ H300).
    change (N.to_nat (varint_value (encode_varint 300))) with 300%nat.
    by rewrite decide_True by lia.
Qed.
End Varint.

(** * The statements at explicit inputs *)

Section Runs.
Import sample.
#[local] Existing Instance schema.
#[local] Existing Instance externals.
#[local] Existing Instance uint64_Decoder.
Local Open Scope Z_scope.

(** C1, counterexample.  An Envelope Message of two items decoded as a
    tuple of arity 1: the item count differs from the arity, and the decode
    returns with the first item in the slot. *)
Lemma tuple_of_other_count_is_decoded :
  ¬ (∀ (tuple : tuple1 Z) (data : bytes) (client : option Client),
       length (Tuple_ParseFromString data).2 ≠ 1%nat →
       ending_of (decode_tuple1 tuple data client) = Thrown).
Proof.
  intros Hclaim. specialize (Hclaim (Tuple1 0) (items 2) None).
  assert (Hrun : decode_tuple1 (Tuple1 0) (items 2) None
                   = Returns (Tuple1 1)) by reflexivity.
  rewrite Hrun in Hclaim. by discriminate Hclaim.
Qed.

(** C1 (amended), at explicit inputs: arity 1 on two items, arity 2 on
    three items of which the second does not decode, arity 5 on six
    items. *)
Lemma decode_tuple_fails_with_its_slots_witness :
  ending_of (decode_tuple1 (Tuple1 0) (items 2) None) = Returned ∧
  ending_of
    (decode_tuple2 (Tuple2 0 0)
       (item Byte.x07 ++ item Byte.x80 ++ item Byte.x09) None) = Thrown ∧
  ending_of (decode_tuple3 (Tuple3 0 0 0) (items 3) (Some (4%nat : Client)))
    = Returned ∧
  ending_of (decode_tuple4 (Tuple4 0 0 0 0) (items 6) None) = Returned ∧
  ending_of (decode_tuple5 (Tuple5 0 0 0 0 0) (items 6) None) = Returned.
Proof.
  destruct (decode_tuple_fails_with_its_slots (Client := Client)
              (T0 := Z) (T1 := Z) (T2 := Z) (T3 := Z) (T4 := Z))
    as (A1 & A2 & A3 & A4 & A5).
  split; [| split; [| split; [| split]]].
  - by rewrite (A1 0 [Byte.x01] [[Byte.x02]] (items 2) None eq_refl).
  - by rewrite (A2 0 0 [Byte.x07] [Byte.x80] [[Byte.x09]]
                  (item Byte.x07 ++ item Byte.x80 ++ item Byte.x09) None
                  eq_refl).
  - by rewrite (A3 0 0 0 [Byte.x01] [Byte.x02] [Byte.x03] [] (items 3)
                  (Some (4%nat : Client)) eq_refl).
  - by rewrite (A4 0 0 0 0 [Byte.x01] [Byte.x02] [Byte.x03] [Byte.x04]
                  [[Byte.x05]; [Byte.x06]] (items 6) None eq_refl).
  - by rewrite (A5 0 0 0 0 0 [Byte.x01] [Byte.x02] [Byte.x03] [Byte.x04]
                  [Byte.x05] [[Byte.x06]] (items 6) None eq_refl).
Defined.

(** C2, counterexample.  On two items followed by a byte that starts no
    field the parser reports a failure, with the two items in the message;
    the sequence decode returns, with the two decoded elements. *)
Lemma unparsable_input_is_decoded :
  ¬ (∀ (vec : list Z) (data : bytes) (client : option Client),
       (List_ParseFromString data).1 = false →
       ending_of (decode_vector vec data client) = Thrown).
Proof.
  intros Hclaim. specialize (Hclaim [8; 9] bad_tail None eq_refl).
  assert (Hrun : decode_vector [8; 9] bad_tail None = Returns [1; 2])
    by reflexivity.
  rewrite Hrun in Hclaim. by discriminate Hclaim.
Qed.

(** C2 (amended), at explicit inputs: two items, which parse, and the same
    with a byte that starts no field after them, which does not, leave the
    same items and decode alike; a failing sequence decode has an item that
    fails. *)
Lemma parse_report_is_ignored_witness :
  (List_ParseFromString (items 2)).1 = true ∧
  (List_ParseFromString bad_tail).1 = false ∧
  decode_vector [8; 9] (items 2) None = decode_vector [3] bad_tail None ∧
  decode_map {[1 := 2]} (items 2) None
    = decode_map (∅ : gmap Z Z) bad_tail None ∧
  decode_set {[8]} (items 2) None = decode_set (∅ : gset Z) bad_tail None ∧
  decode_tuple1 (Tuple1 0) (items 2) None
    = decode_tuple1 (Tuple1 0) bad_tail None ∧
  Exists (throws Z None) (List_ParseFromString second_item_bad).2.
Proof.
  destruct (parse_report_is_ignored (Client := Client)
              (T := Z) (U := Z) (K := Z) (V := Z)
              (T0 := Z) (T1 := Z) (T2 := Z) (T3 := Z) (T4 := Z))
    as (A1 & A2 & A3 & A4 & _ & _ & _ & _ & A9 & _ & _).
  split; [reflexivity |]. split; [reflexivity |].
  split; [by apply A1 |]. split; [by apply A2 |].
  split; [by apply A3 |]. split; [by apply A4 |].
  by apply (A9 [8; 9]).
Defined.

(** C3, counterexample.  The second of two items does not decode: the
    call fails, and the caller's vector, which held 1 and 2, now holds the
    element decoded from the first item. *)
Lemma failed_decode_leaves_partial_output :
  ¬ (∀ (prior out : list Z) (data : bytes) (client : option Client),
       decode_vector prior data client = DecodeFailed out →
       out = prior ∨ out = []).
Proof.
  intros Hclaim.
  destruct (Hclaim [1; 2] [7] second_item_bad None eq_refl);
    discriminate.
Qed.

(** C3 (amended), at an explicit input. *)
Lemma failed_decode_keeps_decoded_prefix_witness :
  ∃ before item after,
    (List_ParseFromString second_item_bad).2 = before ++ item :: after ∧
    Forall2 (decoded None) before [7] ∧ throws Z None item.
Proof.
  by apply (proj1 (failed_decode_keeps_decoded_prefix (Client := Client)
                     (T := Z) (U := Z) (K := Z) (V := Z)) [1; 2]).
Defined.

(** C4, counterexample.  Two entries with the key 7 decode to a
    dictionary of one entry, and an Envelope Message of two items decodes
    as a tuple of arity 1: in neither is the element count of the message
    that of the output. *)
Lemma decoded_count_differs_from_item_count :
  ¬ (∀ (dictionary out : gmap Z Z) (data : bytes) (client : option Client),
       decode_map dictionary data client = Returns out →
       size out = length (Dictionary_ParseFromString data).2) ∧
  ¬ (∀ (t0 v0 : Z) (data : bytes) (client : option Client),
       decode_tuple1 (Tuple1 t0) data client = Returns (Tuple1 v0) →
       length (Tuple_ParseFromString data).2 = 1%nat).
Proof.
  split; intros Hclaim.
  - specialize (Hclaim ∅ {[7 := 9]} duplicate_key None eq_refl).
    rewrite map_size_singleton in Hclaim. by discriminate Hclaim.
  - specialize (Hclaim 0 1 (items 2) None eq_refl). by discriminate Hclaim.
Qed.

(** C4 (amended), at explicit inputs: two items decode to two elements in
    order; the same item twice decodes to a set of one element; two entries
    with the key 7 decode to a dictionary of one entry; two items decode to
    a pair, slot by slot. *)
Lemma decode_keeps_the_items_witness :
  (length [1; 2] = length (List_ParseFromString (items 2)).2 ∧
   Forall2 (decoded None) (List_ParseFromString (items 2)).2 [1; 2] ∧
   ∀ i item, (List_ParseFromString (items 2)).2 !! i = Some item →
     ∃ v : Z, [1; 2] !! i = Some v ∧ decoded None item v) ∧
  (∃ values : list Z,
     Forall2 (decoded None) (Set_ParseFromString same_item_twice).2 values ∧
     ({[7]} : gset Z) = list_to_set values ∧
     (∀ v, v ∈ ({[7]} : gset Z) ↔ v ∈ values) ∧
     size ({[7]} : gset Z) = length (remove_dups values) ∧
     (size ({[7%Z]} : gset Z)
        ≤ length (Set_ParseFromString same_item_twice).2)%nat ∧
     (size ({[7]} : gset Z) = length (Set_ParseFromString same_item_twice).2
      ↔ NoDup values)) ∧
  (∃ pairs : list (Z * Z),
     Forall2 (entry_decoded None)
       (Dictionary_ParseFromString duplicate_key).2 pairs ∧
     ({[7 := 9]} : gmap Z Z) = assign_all pairs ∅ ∧
     dom ({[7 := 9]} : gmap Z Z) = list_to_set pairs.*1 ∧
     size ({[7 := 9]} : gmap Z Z) = length (remove_dups pairs.*1) ∧
     (size ({[7%Z := 9%Z]} : gmap Z Z)
        ≤ length (Dictionary_ParseFromString duplicate_key).2)%nat ∧
     (size ({[7 := 9]} : gmap Z Z)
        = length (Dictionary_ParseFromString duplicate_key).2
      ↔ NoDup pairs.*1)) ∧
  ((2 ≤ length (Tuple_ParseFromString (items 2)).2)%nat ∧
   slot_decoded None (Tuple_ParseFromString (items 2)).2 0 (0 : Z) 1 ∧
   slot_decoded None (Tuple_ParseFromString (items 2)).2 1 (0 : Z) 2).
Proof.
  destruct (decode_keeps_the_items (Client := Client) (T := Z) (U := Z)
              (K := Z) (V := Z) (T0 := Z) (T1 := Z) (T2 := Z) (T3 := Z)
              (T4 := Z))
    as (A1 & _ & A3 & _ & A5 & _ & _ & A8 & _).
  split; [| split; [| split]].
  - by apply (A1 [5]).
  - by apply (A3 {[5]}).
  - by apply (A5 {[1 := 2]}).
  - by apply A8.
Defined.

(** C5, at an explicit input: two entries with the key 7. *)
Lemma decode_map_last_key_wins_witness :
  ∃ pairs : list (Z * Z),
    Forall2 (entry_decoded None)
      (Dictionary_ParseFromString duplicate_key).2 pairs ∧
    (∀ k v, ({[7 := 9]} : gmap Z Z) !! k = Some v ↔ last_seen pairs k v) ∧
    dom ({[7 := 9]} : gmap Z Z) = list_to_set pairs.*1 ∧
    (∀ k v, last_seen pairs k v →
       filter (λ kv, kv.1 = k) (map_to_list ({[7 := 9]} : gmap Z Z))
         = [(k, v)]).
Proof.
  by apply (decode_map_last_key_wins (Client := Client) {[1 := 1]}
              {[7 := 9]} duplicate_key None).
Defined.

(** C6, at explicit inputs: the number 7, then the number 300, for
    enumerations whose enumerators are 0, 1 and 2, the first with [int] as
    underlying type, the second with an unsigned type of eight bits. *)
Lemma decode_enum_keeps_the_number_witness :
  (7 ∉ enumerators
         {| enumerators := [0; 1; 2]; underlying_type := int32 |}) ∧
  (∃ out : Enum {| enumerators := [0; 1; 2]; underlying_type := int32 |},
     decode_enum (static_cast _ 0) [Byte.x07] None = Returns out ∧
     underlying _ out = 7) ∧
  (∃ out : Enum {| enumerators := [0; 1; 2]; underlying_type := int32 |},
     decode_enum (static_cast _ 0) [Byte.xac; Byte.x02] None = Returns out ∧
     underlying _ out = 300) ∧
  decode_enum
    (static_cast
       {| enumerators := [0; 1; 2];
          underlying_type := {| bits := 8; is_signed := false |} |} 0)
    [Byte.xac; Byte.x02] None
    = Returns (enum_value _ 44).
Proof.
  split; [| split; [| split]].
  - simpl. by rewrite !elem_of_cons, elem_of_nil; intros [?|[?|[?|?]]].
  - apply (proj1 (proj2 (proj2
             (decode_enum_keeps_the_number (Client := Client) _)))).
    + by split.
    + lia.
    + reflexivity.
  - apply (proj1 (proj2 (proj2
             (decode_enum_keeps_the_number (Client := Client) _)))).
    + by split.
    + lia.
    + reflexivity.
  - exact (proj1 (decode_enum_keeps_the_number (Client := Client) _)
             _ [Byte.xac; Byte.x02] None 300 eq_refl).
Defined.


(** C8, at explicit inputs: a vector that held 8 and 9 decodes as an empty
    one does, and the 2 it ends up with comes from an item. *)
Lemma decode_discards_prior_contents_witness :
  decode_vector [8; 9] (items 2) None = decode_vector [] (items 2) None ∧
  ∃ item,
    item ∈ (List_ParseFromString (items 2)).2 ∧ decoded None item 2.
Proof.
  destruct (decode_discards_prior_contents (Client := Client)
              (T := Z) (U := Z) (K := Z) (V := Z))
    as (A1 & _ & _ & A4 & _).
  split; [apply A1 |].
  apply (A4 [8; 9] [1; 2] (items 2) None eq_refl 2).
  apply elem_of_cons. right. apply elem_of_cons. by left.
Defined.

(** C10, at explicit inputs: six items and five items decode alike at
    every arity, and six items decode as a tuple of five. *)
Lemma decode_tuple_reads_first_items_witness :
  decode_tuple1 (Tuple1 0) (items 6) None
    = decode_tuple1 (Tuple1 0) (items 5) None ∧
  decode_tuple2 (Tuple2 0 0) (items 6) None
    = decode_tuple2 (Tuple2 0 0) (items 5) None ∧
  decode_tuple3 (Tuple3 0 0 0) (items 6) None
    = decode_tuple3 (Tuple3 0 0 0) (items 5) None ∧
  decode_tuple4 (Tuple4 0 0 0 0) (items 6) None
    = decode_tuple4 (Tuple4 0 0 0 0) (items 5) None ∧
  decode_tuple5 (Tuple5 0 0 0 0 0) (items 6) None
    = decode_tuple5 (Tuple5 0 0 0 0 0) (items 5) None ∧
  decode_tuple1 (Tuple1 0) (items 6) None = Returns (Tuple1 1) ∧
  decode_tuple2 (Tuple2 0 0) (items 6) None = Returns (Tuple2 1 2) ∧
  decode_tuple3 (Tuple3 0 0 0) (items 6) None = Returns (Tuple3 1 2 3) ∧
  decode_tuple4 (Tuple4 0 0 0 0) (items 6) None
    = Returns (Tuple4 1 2 3 4) ∧
  decode_tuple5 (Tuple5 0 0 0 0 0) (items 6) None
    = Returns (Tuple5 1 2 3 4 5).
Proof.
  destruct (decode_tuple_reads_first_items (Client := Client)
              (T0 := Z) (T1 := Z) (T2 := Z) (T3 := Z) (T4 := Z))
    as (A1 & A2 & A3 & A4 & A5 & B1 & B2 & B3 & B4 & B5).
  split; [by apply A1 |]. split; [by apply A2 |].
  split; [by apply A3 |]. split; [by apply A4 |].
  split; [by apply A5 |].
  split; [by eapply B1 |]. split; [by eapply B2 |].
  split; [by eapply B3 |]. split; [by eapply B4 |]. by eapply B5.
Defined.
End Runs.

(** C9, at explicit inputs: the prefixes [0x80 0x81 0x00] and [0x80 0x01],
    which both denote 128, and the encoding of 300 before the 300 bytes of a
    message of a hundred items, which parses, and before its first 299
    bytes. *)
Lemma size_and_position_scan_witness :
  decode_size_and_position ([Byte.x80; Byte.x81; Byte.x00] ++ [Byte.xff])
    = Some (128%N, 3%N) ∧
  decode_size_and_position ([Byte.x80; Byte.x01] ++ [Byte.xff])
    = Some (128%N, 2%N) ∧
  (∃ prefix rest : bytes,
     [Byte.x05; Byte.x0a; Byte.x0b] = prefix ++ rest ∧
     is_varint prefix = true ∧ 5%N = varint_value prefix ∧
     1%N = N.of_nat (length prefix)) ∧
  decode_delimited sample.ParseFromString
    ([Byte.x03] ++ sample.items 1)
    = sample.ParseFromString (sample.items 1) ∧
  decode_delimited sample.ParseFromString
    ([Byte.x03] ++ [Byte.x0a; Byte.x01]) = None ∧
  decode_delimited sample.ParseFromString
    (encode_varint 300 ++ sample.items 100)
    = Some ((λ i, (Byte.x0a, [default Byte.x00 (Byte.of_N (N.of_nat i))]))
              <$> seq 1 100) ∧
  decode_delimited sample.ParseFromString
    (encode_varint 300 ++ take 299 (sample.items 100)) = None.
Proof.
  destruct size_and_position_scan as (A1 & A2 & _ & _ & A5 & A6 & A7 & A8).
  split; [by apply (A1 [Byte.x80; Byte.x81; Byte.x00]) |].
  split; [by apply (A1 [Byte.x80; Byte.x01]) |].
  split; [by apply A2 |].
  split; [by apply (A5 _ _ [Byte.x03]) |].
  split; [apply (A6 _ _ [Byte.x03]); [done | vm_compute; lia] |].
  split; [apply A7; [done | by vm_compute] |].
  by apply A8.
Defined.

(** * The further properties at explicit inputs *)

Section MoreRuns.
Import sample.
#[local] Existing Instance schema.
#[local] Existing Instance externals.
#[local] Existing Instance uint64_Decoder.
Local Open Scope Z_scope.

(** X1, at explicit inputs. *)
Lemma container_loops_stay_in_range_witness :
  ending_of (decode_vector [8; 9] second_item_bad None) ≠ Undefined ∧
  ending_of (decode_set ({[8]} : gset Z) (items 2) None) ≠ Undefined ∧
  ending_of (decode_map ({[8 := 9]} : gmap Z Z) duplicate_key None)
    ≠ Undefined.
Proof.
  destruct (container_loops_stay_in_range (Client := Client)
              (T := Z) (U := Z) (K := Z) (V := Z))
    as (_ & _ & _ & A4 & A5 & A6).
  split; [apply A4 | split; [apply A5 | apply A6]].
  all: match goal with
       | |- ?x ∉ ?l => let l' := eval vm_compute in l in change (x ∉ l')
       end.
  all: rewrite ?not_elem_of_cons; repeat split; try done.
  all: apply not_elem_of_nil.
Defined.

(** X2, at explicit inputs: the empty input. *)
Lemma empty_message_empty_container_witness :
  decode_vector [8; 9] [] None = Returns [] ∧
  decode_set ({[8]} : gset Z) [] None = Returns ∅ ∧
  decode_map ({[8 := 9]} : gmap Z Z) [] None = Returns ∅ ∧
  (List_ParseFromString []).2 = [].
Proof.
  destruct (empty_message_empty_container (Client := Client)
              (T := Z) (U := Z) (K := Z) (V := Z))
    as (A1 & A2 & A3 & _ & A5 & _).
  split; [by apply A1 |]. split; [by apply A3 |]. split; [by apply A5 |].
  by apply (A2 [8; 9] [] None).
Defined.

(** X3, at an explicit input: an identifier that does not decode. *)
Lemma failed_decode_Object_assigns_nothing_witness :
  ∃ out,
    decode_Object {| client := Some (5%nat : Client); id := 9 |}
      [Byte.x80] None = DecodeFailed out ∧
    out = {| client := Some (5%nat : Client); id := 9 |}.
Proof.
  eexists. split; [reflexivity |].
  by apply (proj2 (failed_decode_Object_assigns_nothing (Client := Client))
              _ _ [Byte.x80] None).
Defined.

(** X4, at explicit inputs: two items at the arities 3, 4 and 5, one item
    at arity 2, and no item at every arity. *)
Lemma decode_tuple_of_too_few_items_witness :
  ending_of (decode_tuple2 (Tuple2 0 0) (items 1) None) ≠ Returned ∧
  ending_of (decode_tuple3 (Tuple3 0 0 0) (items 2) None) ≠ Returned ∧
  ending_of (decode_tuple4 (Tuple4 0 0 0 0) (items 2) None) ≠ Returned ∧
  ending_of (decode_tuple5 (Tuple5 0 0 0 0 0) (items 2) None) ≠ Returned ∧
  decode_tuple1 (Tuple1 0) [] None = OutOfRange ∧
  decode_tuple2 (Tuple2 0 0) [] None = OutOfRange ∧
  decode_tuple3 (Tuple3 0 0 0) [] None = OutOfRange ∧
  decode_tuple4 (Tuple4 0 0 0 0) [] None = OutOfRange ∧
  decode_tuple5 (Tuple5 0 0 0 0 0) [] None = OutOfRange.
Proof.
  destruct (decode_tuple_of_too_few_items (Client := Client)
              (T0 := Z) (T1 := Z) (T2 := Z) (T3 := Z) (T4 := Z))
    as (_ & A2 & A3 & A4 & A5 & B1 & B2 & B3 & B4 & B5).
  split; [apply A2; simpl; lia |]. split; [apply A3; simpl; lia |].
  split; [apply A4; simpl; lia |]. split; [apply A5; simpl; lia |].
  split; [by apply B1 |]. split; [by apply B2 |]. split; [by apply B3 |].
  split; [by apply B4 |]. by apply B5.
Defined.

(** X5, at explicit types: a pair of an object handle and a vector of
    identifiers. *)
Lemma returned_value_ignores_prior_contents_witness :
  overwrites (tuple2 (Object Client) (list Z)).
Proof.
  destruct (returned_value_ignores_prior_contents (Client := Client)
              (T := Z) (U := Z) (K := Z) (V := Z)
              (T0 := Object Client) (T1 := list Z) (T2 := Z) (T3 := Z)
              (T4 := Z))
    as (A1 & _ & _ & _ & _ & A6 & _).
  apply A6; [apply A1 |].
  destruct (returned_value_ignores_prior_contents (Client := Client)
              (T := Z) (U := Z) (K := Z) (V := Z)
              (T0 := Z) (T1 := Z) (T2 := Z) (T3 := Z) (T4 := Z))
    as (_ & A2 & _).
  apply A2.
Defined.

(** X6, at explicit inputs: the items 1, 2 and the items 2, 1, 1. *)
Lemma decode_set_ignores_order_witness :
  decode_set ({[8]} : gset Z) shuffled None = Returns {[1; 2]}.
Proof.
  apply (decode_set_ignores_order (Client := Client) ∅ {[8]} {[1; 2]}
           (items 2) shuffled None); [| reflexivity].
  intros item. change ((Set_ParseFromString (items 2)).2)
    with [[Byte.x01]; [Byte.x02]].
  change ((Set_ParseFromString shuffled).2)
    with [[Byte.x02]; [Byte.x01]; [Byte.x01]].
  rewrite !elem_of_cons, !elem_of_nil. naive_solver.
Defined.

(** X7, at explicit inputs. *)
Lemma decode_of_joined_items_witness :
  decode_vector [8] (items 2 ++ same_item_twice) None
    = Returns ([1; 2] ++ [7; 7]) ∧
  decode_vector [8] (second_item_bad ++ items 2) None = DecodeFailed [7] ∧
  decode_vector [8] (items 2 ++ second_item_bad) None
    = DecodeFailed ([1; 2] ++ [7]) ∧
  decode_set ({[8]} : gset Z) (items 2 ++ same_item_twice) None
    = Returns ({[1; 2]} ∪ {[7]}) ∧
  decode_set ({[8]} : gset Z) (second_item_bad ++ items 2) None
    = DecodeFailed {[7]} ∧
  decode_map ({[8 := 8]} : gmap Z Z) (duplicate_key ++ one_entry) None
    = Returns ({[7 := 8]} ∪ {[7 := 9]}) ∧
  decode_map ({[8 := 8]} : gmap Z Z) (one_entry ++ bad_key ++ one_entry)
    None = DecodeFailed {[7 := 8]}.
Proof.
  destruct (decode_of_joined_items (Client := Client)
              (T := Z) (U := Z) (K := Z) (V := Z))
    as (A1 & A2 & A3 & A4 & A5 & A6 & A7).
  split; [by apply (A1 _ _ _ _ (items 2) same_item_twice) |].
  split; [by apply (A2 _ _ _ second_item_bad (items 2)) |].
  split; [by apply (A3 _ _ _ _ (items 2) second_item_bad) |].
  split; [by apply (A4 _ _ _ _ (items 2) same_item_twice) |].
  split; [by apply (A5 _ _ _ second_item_bad (items 2)) |].
  split; [by apply (A6 _ _ _ _ duplicate_key one_entry) |].
  by apply (A7 _ _ _ (one_entry ++ bad_key) one_entry).
Defined.

(** X9, at explicit inputs. *)
Lemma decode_set_forgets_the_order_witness :
  decode_set ({[8]} : gset Z) shuffled None = Returns (list_to_set [2; 1; 1]) ∧
  decode_set ({[8]} : gset Z) second_item_bad None
    = DecodeFailed (list_to_set [7]).
Proof.
  split.
  - destruct (decode_set_forgets_the_order (Client := Client) [8] {[8]}
                shuffled shuffled None) as (A1 & _); [reflexivity |].
    by apply A1.
  - destruct (decode_set_forgets_the_order (Client := Client) [8] {[8]}
                second_item_bad second_item_bad None) as (_ & A2 & _);
      [reflexivity |].
    by apply A2.
Defined.

(** X8, at explicit inputs: an overload that decodes with the null client
    only, against the one that decodes with every client. *)
Lemma element_overload_is_called_on_items_only_witness :
  @decode_vector Client schema Z uint64_Decoder [8] (items 2) None
    = @decode_vector Client schema Z null_only_Decoder [9] (items 2) None ∧
  @decode_set Client schema Z _ _ uint64_Decoder {[8]} (items 2) None
    = @decode_set Client schema Z _ _ null_only_Decoder ∅ (items 2) None ∧
  @decode_map Client schema Z Z _ _ uint64_Decoder uint64_Decoder {[8 := 8]}
    duplicate_key None
    = @decode_map Client schema Z Z _ _ null_only_Decoder null_only_Decoder
        ∅ duplicate_key None.
Proof.
  destruct (element_overload_is_called_on_items_only (Client := Client)
              uint64_Decoder null_only_Decoder
              uint64_Decoder null_only_Decoder
              uint64_Decoder null_only_Decoder
              uint64_Decoder null_only_Decoder)
    as (A1 & A2 & A3).
  split; [by apply A1 |]. split; [by apply A2 |]. by apply A3.
Defined.
End MoreRuns.
